(** * Waste Sorter AI: the classification client and the session controller

    A shallow embedding of [services/wasteClassifier.ts] (the function
    [classifyWaste] and its helper [captureFrame]), of the component
    [App.tsx] (camera lifecycle, polling timer, error slots) and of
    [components/ClassificationResult.tsx] (the three-way display switch),
    together with the properties the specification states about them. *)

From Stdlib Require Import PrimFloat Ascii.
From stdpp Require Import base option list strings gmap.

(** ** JavaScript values *)

(** A JavaScript number is an IEEE-754 binary64 value: a primitive float. *)
#[warnings="-register-all"]
Inductive JSValue : Type :=
| JSUndefined
| JSNull
| JSBool (b : bool)
| JSNumber (x : float)
| JSString (s : string)
| JSArray (items : list JSValue)
| JSObject (props : list (string * JSValue)).

(** A thrown value.  [startCamera] tells a [DOMException] from anything else
    with [instanceof], and then looks at its [name]. *)
Inductive JSError : Type :=
| DOMException (name message : string)
| OtherError (name message : string).

(** The result of a call that may throw (or of a promise that may reject). *)
Abbreviation Completion A := (JSError + A)%type.

Definition bindC {A B} (c : Completion A) (k : A -> Completion B) : Completion B :=
  match c with
  | inl e => inl e
  | inr a => k a
  end.

Definition TypeError (msg : string) : JSError := OtherError "TypeError" msg.

(** Modelled from the spec: the enumeration [WasteType] of [types.ts], which
    is not among the sources.  The specification gives its three members
    (PLASTIC, NON_PLASTIC, UNKNOWN); the response schema of the classifier
    lists the same three strings, and they are the values the members have
    when the program runs. *)
Inductive WasteType : Type := PLASTIC | NON_PLASTIC | UNKNOWN.

Definition WasteType_value (t : WasteType) : string :=
  match t with
  | PLASTIC => "PLASTIC"
  | NON_PLASTIC => "NON_PLASTIC"
  | UNKNOWN => "UNKNOWN"
  end.

Global Instance WasteType_eq_dec : EqDecision WasteType.
Proof. solve_decision. Defined.

(** ** The browser and the remote model, as seen by [classifyWaste] *)

Record HTMLVideoElement : Type := {
  videoWidth : N;
  videoHeight : N
}.

(** What the platform answers to the calls [classifyWaste] makes.  The
    functions of the language runtime that are not part of the repository
    ([JSON.parse], the conversion of a string to a number, the conversion of
    an object to a primitive) are taken as they are found. *)
Record World : Type := {
  (** does [canvas.getContext('2d')] give a context? *)
  getContext : bool;
  (** [canvas.toDataURL('image/jpeg', 0.8)] after drawing the video *)
  toDataURL : HTMLVideoElement -> string;
  (** [ai.models.generateContent]: a rejection, or the [text] of the response
      ([None] when the response carries no text) *)
  generateContent : option string -> Completion (option string);
  (** [JSON.parse] *)
  JSON_parse : string -> Completion JSValue;
  (** [ToPrimitive] with hint Number, on an array or an object *)
  ToPrimitive : JSValue -> Completion string;
  (** [StringToNumber] *)
  StringToNumber : string -> float
}.

(** What [classifyWaste] does to the outside, in order. *)
Inductive Action : Type :=
| CaptureFrame (v : HTMLVideoElement)
| RemoteRequest (image : option string).

(** ** Operators of the language *)

(** [s.split(',')] *)
Fixpoint split_comma (acc : string) (s : string) : list string :=
  match s with
  | EmptyString => [acc]
  | String c rest =>
      if Ascii.eqb c ","%char then acc :: split_comma EmptyString rest
      else split_comma (acc +:+ String c EmptyString) rest
  end.

(** [ToNumber] *)
Definition ToNumber (w : World) (v : JSValue) : Completion float :=
  match v with
  | JSUndefined => inr nan
  | JSNull => inr 0%float
  | JSBool b => inr (if b then 1%float else 0%float)
  | JSNumber x => inr x
  | JSString s => inr (StringToNumber w s)
  | JSArray _ | JSObject _ =>
      bindC (ToPrimitive w v) (fun s => inr (StringToNumber w s))
  end.

(** [IsLessThan(v, y)] for a number [y]: true, false, or undefined ([None])
    when a NaN is involved. *)
Definition IsLessThan (w : World) (v : JSValue) (y : float) : Completion (option bool) :=
  bindC (ToNumber w v) (fun x =>
    inr match PrimFloat.compare x y with
        | FLt => Some true
        | FEq | FGt => Some false
        | FNotComparable => None
        end).

(** [v < y]: an undefined comparison is false. *)
Definition js_lt (w : World) (v : JSValue) (y : float) : Completion bool :=
  bindC (IsLessThan w v y) (fun r =>
    inr match r with Some true => true | _ => false end).

(** [v >= y]: the negation of [IsLessThan], and false when it is undefined. *)
Definition js_ge (w : World) (v : JSValue) (y : float) : Completion bool :=
  bindC (IsLessThan w v y) (fun r =>
    inr match r with Some false => true | _ => false end).

(** [v === s] for a string [s] *)
Definition strict_eq_string (v : JSValue) (s : string) : bool :=
  match v with
  | JSString s' => bool_decide (s' = s)
  | _ => false
  end.

Fixpoint assoc (k : string) (props : list (string * JSValue)) : option JSValue :=
  match props with
  | [] => None
  | (k', v) :: rest => if bool_decide (k' = k) then Some v else assoc k rest
  end.

(** [v.k] as the destructuring [const { k } = v] reads it: a [TypeError] on
    [null] and [undefined]; the own property of an object; [undefined]
    otherwise (neither of the two names read here is a property of a
    prototype). *)
Definition getProp (v : JSValue) (k : string) : JSValue :=
  match v with
  | JSObject props => default JSUndefined (assoc k props)
  | _ => JSUndefined
  end.

Definition RequireObjectCoercible (v : JSValue) : Completion JSValue :=
  match v with
  | JSUndefined | JSNull =>
      inl (TypeError "Cannot destructure a value that is null or undefined.")
  | _ => inr v
  end.

(** ** [services/wasteClassifier.ts] *)

(** A computation that acts on the outside and then returns or throws: the
    actions taken so far, and the completion. *)
Definition Task (A : Type) : Type := list Action * Completion A.

Definition ret {A} (a : A) : Task A := ([], inr a).
Definition throw {A} (e : JSError) : Task A := ([], inl e).
Definition act (a : Action) : Task unit := ([a], inr tt).
Definition lift {A} (c : Completion A) : Task A := ([], c).

Definition bindT {A B} (m : Task A) (k : A -> Task B) : Task B :=
  match m with
  | (l, inl e) => (l, inl e)
  | (l, inr a) => let '(l', r) := k a in (l ++ l', r)
  end.

Declare Scope task_scope.
Delimit Scope task_scope with task.
Notation "x <- m ;; k" := (bindT m (fun x => k))
  (at level 100, m at next level, right associativity) : task_scope.
Notation "m ;;; k" := (bindT m (fun _ => k))
  (at level 100, right associativity) : task_scope.

(** [dataUrl.split(',')[1]]: [undefined] when the URL has no comma. *)
Definition base64_part (dataUrl : string) : option string :=
  split_comma EmptyString dataUrl !! 1%nat.

(** [captureFrame]: the base64 part of the data URL of the current frame. *)
Definition captureFrame (w : World) (videoElement : HTMLVideoElement) : Task (option string) :=
  (act (CaptureFrame videoElement) ;;;
   if getContext w then
     let dataUrl := toDataURL w videoElement in
     ret (base64_part dataUrl)
   else throw (OtherError "Error" "Could not get 2D context from canvas."))%task.


(** [JSON.parse(response.text)]: an absent text is converted to the string
    ["undefined"] before it is parsed. *)
Definition parse_text (w : World) (text : option string) : Completion JSValue :=
  JSON_parse w (default "undefined" text).

Definition classifyWaste (w : World) (videoElement : option HTMLVideoElement)
  : Task WasteType :=
  (match videoElement with
   | None => ret UNKNOWN
   | Some v =>
       if (videoWidth v =? 0)%N || (videoHeight v =? 0)%N then ret UNKNOWN
       else
         base64Image <- captureFrame w v ;;
         act (RemoteRequest base64Image) ;;;
         text <- lift (generateContent w base64Image) ;;
         resultJson <- lift (parse_text w text) ;;
         obj <- lift (RequireObjectCoercible resultJson) ;;
         let classification := getProp obj "classification" in
         let confidence := getProp obj "confidence" in
         low <- lift (js_lt w confidence 0.75%float) ;;
         if low then ret UNKNOWN
         else if strict_eq_string classification (WasteType_value PLASTIC) then ret PLASTIC
         else if strict_eq_string classification (WasteType_value NON_PLASTIC) then ret NON_PLASTIC
         else ret UNKNOWN
   end)%task.

(** ** [components/ClassificationResult.tsx] *)

(** The icon components of [components/icons/Icons.tsx], by name. *)
Inductive Icon : Type := PlasticIcon | NonPlasticIcon | UnknownIcon.

Record ResultDetails : Type := {
  text : string;
  style : string;
  icon : Icon
}.

Definition getResultDetails (result : WasteType) : ResultDetails :=
  match result with
  | PLASTIC =>
      {| text := "Plastic Waste";
         style := "bg-orange-500/20 border-orange-500 text-orange-300";
         icon := PlasticIcon |}
  | NON_PLASTIC =>
      {| text := "Non-Plastic Waste";
         style := "bg-green-500/20 border-green-500 text-green-300";
         icon := NonPlasticIcon |}
  | _ =>
      {| text := "Scanning...";
         style := "bg-gray-700/50 border-gray-600 text-gray-400";
         icon := UnknownIcon |}
  end.

(** ** [App.tsx] *)

(** A media stream and the tracks [getTracks()] lists, by their ids. *)
Record MediaStream : Type := {
  stream_id : nat;
  getTracks : list nat
}.

Global Instance MediaStream_eq_dec : EqDecision MediaStream.
Proof. solve_decision. Defined.

(** What the component does to the browser, in order. *)
Inductive Effect : Type :=
| GetUserMedia
| SetInterval (id : positive)
| ClearInterval (id : positive)
| TrackStop (track : nat).

(** The component and the part of the browser it acts on.

    The five [useState] cells hold the values of the last render.  The
    callback of an interval is created by [startClassification] and closes
    over the [classificationError] of the render that created
    [startClassification]; a call of [classifyWaste] that has been started
    and has not settled yet keeps the closure of the callback that started
    it.  The handle [setInterval] returns is an integer greater than zero,
    so a handle is never falsy. *)
Record App : Type := {
  isCameraActive : bool;
  stream : option MediaStream;
  classification : WasteType;
  error : option string;
  classificationError : option string;
  (** [classificationIntervalRef.current] *)
  classificationIntervalRef : option positive;
  (** the intervals the browser holds, each with the [classificationError]
      its callback closed over *)
  timers : gmap positive (option string);
  (** the id the next [setInterval] returns *)
  next_timer : positive;
  (** the tracks that have been stopped *)
  ended : gset nat;
  (** calls of [classifyWaste] awaited by a tick: the closure's
      [classificationError], and how the call settles *)
  pending : list (option string * Completion WasteType);
  (** calls of [getUserMedia] awaited by [startCamera] *)
  acquiring : nat;
  log : list Effect
}.

Definition setIsCameraActive (b : bool) (s : App) : App :=
  {| isCameraActive := b; stream := stream s; classification := classification s;
     error := error s; classificationError := classificationError s;
     classificationIntervalRef := classificationIntervalRef s;
     timers := timers s; next_timer := next_timer s; ended := ended s;
     pending := pending s; acquiring := acquiring s; log := log s |}.

Definition setStream (m : option MediaStream) (s : App) : App :=
  {| isCameraActive := isCameraActive s; stream := m; classification := classification s;
     error := error s; classificationError := classificationError s;
     classificationIntervalRef := classificationIntervalRef s;
     timers := timers s; next_timer := next_timer s; ended := ended s;
     pending := pending s; acquiring := acquiring s; log := log s |}.

Definition setClassification (t : WasteType) (s : App) : App :=
  {| isCameraActive := isCameraActive s; stream := stream s; classification := t;
     error := error s; classificationError := classificationError s;
     classificationIntervalRef := classificationIntervalRef s;
     timers := timers s; next_timer := next_timer s; ended := ended s;
     pending := pending s; acquiring := acquiring s; log := log s |}.

Definition setError (e : option string) (s : App) : App :=
  {| isCameraActive := isCameraActive s; stream := stream s; classification := classification s;
     error := e; classificationError := classificationError s;
     classificationIntervalRef := classificationIntervalRef s;
     timers := timers s; next_timer := next_timer s; ended := ended s;
     pending := pending s; acquiring := acquiring s; log := log s |}.

Definition setClassificationError (e : option string) (s : App) : App :=
  {| isCameraActive := isCameraActive s; stream := stream s; classification := classification s;
     error := error s; classificationError := e;
     classificationIntervalRef := classificationIntervalRef s;
     timers := timers s; next_timer := next_timer s; ended := ended s;
     pending := pending s; acquiring := acquiring s; log := log s |}.

Definition set_pending (p : list (option string * Completion WasteType)) (s : App) : App :=
  {| isCameraActive := isCameraActive s; stream := stream s; classification := classification s;
     error := error s; classificationError := classificationError s;
     classificationIntervalRef := classificationIntervalRef s;
     timers := timers s; next_timer := next_timer s; ended := ended s;
     pending := p; acquiring := acquiring s; log := log s |}.

Definition set_acquiring (n : nat) (s : App) : App :=
  {| isCameraActive := isCameraActive s; stream := stream s; classification := classification s;
     error := error s; classificationError := classificationError s;
     classificationIntervalRef := classificationIntervalRef s;
     timers := timers s; next_timer := next_timer s; ended := ended s;
     pending := pending s; acquiring := n; log := log s |}.

(** [clearInterval(id)], followed by [classificationIntervalRef.current = null] *)
Definition clearInterval (id : positive) (s : App) : App :=
  {| isCameraActive := isCameraActive s; stream := stream s; classification := classification s;
     error := error s; classificationError := classificationError s;
     classificationIntervalRef := None;
     timers := delete id (timers s); next_timer := next_timer s; ended := ended s;
     pending := pending s; acquiring := acquiring s;
     log := log s ++ [ClearInterval id] |}.

(** [classificationIntervalRef.current = setInterval(callback, 2000)], for a
    callback that closed over [closure] *)
Definition setInterval (closure : option string) (s : App) : App :=
  {| isCameraActive := isCameraActive s; stream := stream s; classification := classification s;
     error := error s; classificationError := classificationError s;
     classificationIntervalRef := Some (next_timer s);
     timers := <[next_timer s := closure]> (timers s);
     next_timer := Pos.succ (next_timer s); ended := ended s;
     pending := pending s; acquiring := acquiring s;
     log := log s ++ [SetInterval (next_timer s)] |}.

(** [track.stop()] *)
Definition track_stop (s : App) (track : nat) : App :=
  {| isCameraActive := isCameraActive s; stream := stream s; classification := classification s;
     error := error s; classificationError := classificationError s;
     classificationIntervalRef := classificationIntervalRef s;
     timers := timers s; next_timer := next_timer s; ended := {[track]} ∪ ended s;
     pending := pending s; acquiring := acquiring s;
     log := log s ++ [TrackStop track] |}.

(** [navigator.mediaDevices.getUserMedia(...)], awaited *)
Definition getUserMedia (s : App) : App :=
  {| isCameraActive := isCameraActive s; stream := stream s; classification := classification s;
     error := error s; classificationError := classificationError s;
     classificationIntervalRef := classificationIntervalRef s;
     timers := timers s; next_timer := next_timer s; ended := ended s;
     pending := pending s; acquiring := S (acquiring s);
     log := log s ++ [GetUserMedia] |}.

(** Is a string-or-null truthy?  [null] and the empty string are not. *)
Definition truthy (v : option string) : bool :=
  match v with
  | Some EmptyString | None => false
  | Some _ => true
  end.

Definition stopClassification (s : App) : App :=
  match classificationIntervalRef s with
  | Some id => clearInterval id s
  | None => s
  end.

(** [startClassification], as created by a render whose
    [classificationError] was [closure]. *)
Definition startClassification (closure : option string) (s : App) : App :=
  setInterval closure (stopClassification s).

(** [videoRef.current]: the video element is mounted when
    [isCameraActive && stream] holds; [v] is what the element reports. *)
Definition videoRef (s : App) (v : HTMLVideoElement) : option HTMLVideoElement :=
  match stream s with
  | Some _ => if isCameraActive s then Some v else None
  | None => None
  end.

(** The callback of the interval, up to its [await]: the call of
    [classifyWaste] is started. *)
Definition tick (closure : option string) (w : World) (v : HTMLVideoElement) (s : App) : App :=
  match videoRef s v with
  | Some videoElement =>
      set_pending (pending s ++ [(closure, snd (classifyWaste w (Some videoElement)))]) s
  | None => s
  end.

(** The callback of the interval, after its [await]: the [try] block
    continues on a value, the [catch] block runs on a rejection. *)
Definition tick_settled (closure : option string) (r : Completion WasteType) (s : App) : App :=
  match r with
  | inr result =>
      let s := setClassification result s in
      if truthy closure then setClassificationError None s else s
  | inl err =>
      let s := setClassificationError
                 (Some "Classification failed. Please check your network connection.") s in
      setClassification UNKNOWN s
  end.

(** The text [startCamera] shows for a rejected [getUserMedia]. *)
Definition message (err : JSError) : string :=
  match err with
  | DOMException name _ =>
      if bool_decide (name = "NotAllowedError") then
        "Camera access denied. Please enable camera permissions for this site in your browser settings."
      else if bool_decide (name = "NotFoundError") then
        "No camera found. Please ensure a camera is connected and enabled."
      else "An unexpected error occurred while accessing the camera. Please try again."
  | OtherError _ _ =>
      "An unexpected error occurred while accessing the camera. Please try again."
  end.

(** [startCamera], up to its [await]. *)
Definition startCamera (s : App) : App :=
  let s := setError None s in
  let s := setClassificationError None s in
  let s := setClassification UNKNOWN s in
  getUserMedia s.

(** [startCamera], after its [await]. *)
Definition startCamera_settled (r : Completion MediaStream) (s : App) : App :=
  match r with
  | inr mediaStream =>
      let s := setStream (Some mediaStream) s in
      setIsCameraActive true s
  | inl err =>
      let s := setError (Some (message err)) s in
      setIsCameraActive false s
  end.

(** [if (stream) { stream.getTracks().forEach(track => track.stop()); }] *)
Definition stop_tracks (held : option MediaStream) (s : App) : App :=
  match held with
  | Some m => foldl track_stop s (getTracks m)
  | None => s
  end.

Definition stopCamera (s : App) : App :=
  let held := stream s in
  let s := stopClassification s in
  let s := stop_tracks held s in
  let s := setStream None s in
  let s := setIsCameraActive false s in
  let s := setClassification UNKNOWN s in
  setClassificationError None s.

(** The two [useEffect]s, run after the render that follows a handler.
    [prev] is the state of the previous render and [s] the state the handler
    left.  The first effect depends on [isCameraActive] and on
    [startClassification], which is created anew exactly when
    [classificationError] changes; the second depends on [stream].  The
    cleanups of the effects whose dependencies changed run first, in the
    order of declaration, then their bodies. *)
Definition useEffect (prev s : App) : App :=
  let changed1 :=
    negb (bool_decide (isCameraActive prev = isCameraActive s)) ||
    negb (bool_decide (classificationError prev = classificationError s)) in
  let changed2 := negb (bool_decide (stream prev = stream s)) in
  let s := if changed1 then stopClassification s else s in
  let s := if changed2 then stop_tracks (stream prev) s else s in
  if changed1 then
    if isCameraActive s then startClassification (classificationError s) s
    else stopClassification s
  else s.

(** The state after the first render and its effects. *)
Definition mount : App :=
  {| isCameraActive := false; stream := None; classification := UNKNOWN;
     error := None; classificationError := None;
     classificationIntervalRef := None;
     timers := ∅; next_timer := 1%positive; ended := ∅;
     pending := []; acquiring := 0; log := [] |}.

(** What happens to the component. *)
Inductive Event : Type :=
| Click                                              (** the button *)
| Acquired (r : Completion MediaStream)              (** [getUserMedia] settles *)
| Tick (id : positive) (w : World) (v : HTMLVideoElement)  (** an interval fires *)
| Settled (k : nat).                                 (** a pending call settles *)

(** One event, the render it causes and the effects of that render; [None]
    when the event cannot happen in [s]. *)
Definition step (e : Event) (s : App) : option App :=
  match e with
  | Click =>
      Some (useEffect s (if isCameraActive s then stopCamera s else startCamera s))
  | Acquired r =>
      match acquiring s with
      | O => None
      | S n => Some (useEffect s (startCamera_settled r (set_acquiring n s)))
      end
  | Tick id w v =>
      match timers s !! id with
      | Some closure => Some (tick closure w v s)
      | None => None
      end
  | Settled k =>
      match pending s !! k with
      | Some (closure, r) =>
          Some (useEffect s (tick_settled closure r (set_pending (delete k (pending s)) s)))
      | None => None
      end
  end.

Fixpoint run (events : list Event) (s : App) : option App :=
  match events with
  | [] => Some s
  | e :: rest =>
      match step e s with
      | Some s' => run rest s'
      | None => None
      end
  end.

Definition reachable (s : App) : Prop := ∃ events, run events mount = Some s.

(** ** Sample inputs *)

Definition sample_video : HTMLVideoElement := {| videoWidth := 640; videoHeight := 480 |}.

Definition sample_stream : MediaStream := {| stream_id := 7; getTracks := [70] |}.

(** A world in which the canvas gives a context, the remote call settles as
    [reply] and [JSON.parse] completes as [parsed].  The two conversions are
    those of a plain object and of a string that is not a numeral. *)
Definition sample_world (reply : Completion (option string)) (parsed : Completion JSValue) : World :=
  {| getContext := true;
     toDataURL := fun _ => "data:image/jpeg;base64,/9j/4AAQSkZJRg==";
     generateContent := fun _ => reply;
     JSON_parse := fun _ => parsed;
     ToPrimitive := fun _ => inr "[object Object]";
     StringToNumber := fun _ => nan |}.

(** The double-quote character *)
Definition quote : string := String (ascii_of_nat 34) EmptyString.

(** The JSON text of an answer with both fields. *)
Definition answer_text (label literal : string) : string :=
  "{" +:+ quote +:+ "classification" +:+ quote +:+ ":" +:+ quote +:+ label +:+ quote +:+ "," +:+
  quote +:+ "confidence" +:+ quote +:+ ":" +:+ literal +:+ "}".

Definition answer (label : string) (confidence : float) : JSValue :=
  JSObject [("classification", JSString label); ("confidence", JSNumber confidence)].

(** The model answers [label] with [confidence], written [literal] in the
    text of the answer. *)
Definition world_answering (label literal : string) (confidence : float) : World :=
  sample_world (inr (Some (answer_text label literal))) (inr (answer label confidence)).

(** The remote call is rejected. *)
Definition world_offline : World :=
  sample_world (inl (OtherError "TypeError" "Failed to fetch"))
               (inl (OtherError "SyntaxError" "Unexpected token")).

(** The JSON text of an object whose only member is classification, with the
    value PLASTIC: an answer without the required field [confidence]. *)
Definition text_missing_confidence : string :=
  "{" +:+ quote +:+ "classification" +:+ quote +:+ ":" +:+ quote +:+ "PLASTIC" +:+ quote +:+ "}".

Definition answer_missing_confidence : JSValue :=
  JSObject [("classification", JSString "PLASTIC")].

Definition world_missing_confidence : World :=
  sample_world (inr (Some text_missing_confidence)) (inr answer_missing_confidence).



(** The number of requests among the actions of a call. *)
Definition is_request (a : Action) : bool :=
  match a with
  | RemoteRequest _ => true
  | CaptureFrame _ => false
  end.

Definition requests (l : list Action) : nat := length (List.filter is_request l).

(** ** Invariants of the session controller *)

(** The browser holds no interval but the one whose handle is in
    [classificationIntervalRef]. *)
Definition owned (s : App) : Prop :=
  match classificationIntervalRef s with
  | Some id => ∃ closure, timers s = {[id := closure]}
  | None => timers s = ∅
  end.

(** After every render: there is an interval exactly when the camera is
    active, it is the only one, and its callback closed over the current
    [classificationError]. *)
Definition Inv (s : App) : Prop :=
  match classificationIntervalRef s with
  | Some id => isCameraActive s = true ∧ timers s = {[id := classificationError s]}
  | None => isCameraActive s = false ∧ timers s = ∅
  end.

(** Does [text] contain [word]? *)
Definition mentions (word text : string) : bool :=
  match String.index 0 word text with
  | Some _ => true
  | None => false
  end.

(** Two ticks overlap: the first call is rejected while the second is still
    awaited, then the second call returns PLASTIC. *)
Definition overlapping_ticks : list Event :=
  [Click; Acquired (inr sample_stream);
   Tick 1 world_offline sample_video;
   Tick 1 (world_answering "PLASTIC" "0.875" 0.875) sample_video;
   Settled 0; Settled 0].

(** Two states agree on what the component renders and awaits. *)
Definition same_ui (s s' : App) : Prop :=
  isCameraActive s' = isCameraActive s ∧ stream s' = stream s ∧
  classification s' = classification s ∧ error s' = error s ∧
  classificationError s' = classificationError s ∧
  pending s' = pending s ∧ acquiring s' = acquiring s.

(** The state after a click on the button and a granted camera. *)
Definition active_state : App :=
  {| isCameraActive := true; stream := Some sample_stream; classification := UNKNOWN;
     error := None; classificationError := None;
     classificationIntervalRef := Some 1%positive;
     timers := {[1%positive := None]}; next_timer := 2%positive; ended := ∅;
     pending := []; acquiring := 0; log := [GetUserMedia; SetInterval 1] |}.

(** The three reasons the specification distinguishes for a camera that
    could not be acquired, and the reading of a rejection as one of them. *)
Inductive Reason : Type := PermissionDenied | DeviceNotFound | OtherReason.

Definition spec_reason (err : JSError) : Reason :=
  match err with
  | DOMException name _ =>
      if bool_decide (name = "NotAllowedError") then PermissionDenied
      else if bool_decide (name = "NotFoundError") then DeviceNotFound
      else OtherReason
  | OtherError _ _ => OtherReason
  end.

Definition reason_text (r : Reason) : string :=
  match r with
  | PermissionDenied =>
      "Camera access denied. Please enable camera permissions for this site in your browser settings."
  | DeviceNotFound =>
      "No camera found. Please ensure a camera is connected and enabled."
  | OtherReason =>
      "An unexpected error occurred while accessing the camera. Please try again."
  end.

(** Two sessions, one after the other: start, camera granted, stop, and the
    same again. *)
Definition two_cycles : list Event :=
  [Click; Acquired (inr sample_stream); Click;
   Click; Acquired (inr {| stream_id := 8; getTracks := [80; 81] |}); Click].

(** ** Further definitions: sample worlds, unmounting, the rendered view *)

(** Does the string contain a comma? *)
Fixpoint has_comma (s : string) : bool :=
  match s with
  | EmptyString => false
  | String c rest => Ascii.eqb c ","%char || has_comma rest
  end.

(** The canvas gives no 2D context. *)
Definition world_no_context : World :=
  {| getContext := false;
     toDataURL := fun _ => "data:,";
     generateContent := fun _ => inr (Some (answer_text "PLASTIC" "0.875"));
     JSON_parse := fun _ => inr (answer "PLASTIC" 0.875);
     ToPrimitive := fun _ => inr "[object Object]";
     StringToNumber := fun _ => nan |}.

(** The model answers with a JSON value [parsed] whose text is [txt]. *)
Definition world_parsed (txt : string) (parsed : JSValue) : World :=
  sample_world (inr (Some txt)) (inr parsed).

(** The component is unmounted: the cleanups of both effects run, in the
    order of declaration. *)
Definition unmount (s : App) : App :=
  let held := stream s in
  let s := stopClassification s in
  stop_tracks held s.

(** What the component renders. *)
Inductive Preview : Type :=
| Video (srcObject : MediaStream)   (** [<WebcamCapture stream={stream} />] *)
| CameraOff.                        (** the placeholder, Camera is off *)

Record View : Type := {
  cameraErrorBanner : option string;
  preview : Preview;
  resultBanner : ResultDetails;
  classificationErrorBanner : option string;
  buttonLabel : string
}.

(** The JSX that [App] returns: [error && ...], [isCameraActive && stream ?
    ... : ...], [<ClassificationResult result={classification} />],
    [classificationError && ...] and the label of the button. *)
Definition render (s : App) : View :=
  {| cameraErrorBanner := if truthy (error s) then error s else None;
     preview := match stream s with
                | Some m => if isCameraActive s then Video m else CameraOff
                | None => CameraOff
                end;
     resultBanner := getResultDetails (classification s);
     classificationErrorBanner :=
       if truthy (classificationError s) then classificationError s else None;
     buttonLabel := if isCameraActive s then "Stop Camera" else "Start Camera" |}.

(** The streams that [getUserMedia] granted during a run. *)
Fixpoint granted (events : list Event) : list MediaStream :=
  match events with
  | [] => []
  | Acquired (inr m) :: rest => m :: granted rest
  | _ :: rest => granted rest
  end.

(** A track is accounted for when it has been stopped or belongs to the
    stream the component holds. *)
Definition accounted (s : App) (track : nat) : Prop :=
  track ∈ ended s ∨ ∃ m, stream s = Some m ∧ track ∈ getTracks m.

(** A tick fires, and the camera is stopped while its call is awaited. *)
Definition stop_while_pending : list Event :=
  [Click; Acquired (inr sample_stream);
   Tick 1 (world_answering "PLASTIC" "0.875" 0.875) sample_video;
   Click].

(** What is rendered when nothing is going on. *)
Definition idle_view : View :=
  {| cameraErrorBanner := None;
     preview := CameraOff;
     resultBanner := getResultDetails UNKNOWN;
     classificationErrorBanner := None;
     buttonLabel := "Start Camera" |}.

(** ** Further sample inputs: attempts that overlap *)

(** The user refuses the camera. *)
Definition denied : JSError := DOMException "NotAllowedError" "Permission denied".

Definition second_stream : MediaStream := {| stream_id := 8; getTracks := [80; 81] |}.

(** Two clicks on Start before either request settles; the first request is
    refused, the second is granted. *)
Definition refused_then_granted : list Event :=
  [Click; Click; Acquired (inl denied); Acquired (inr second_stream)].

(** A session is stopped while a call is awaited and the camera is started
    again; the call of the first session settles (as [w] makes it) before
    the camera is granted. *)
Definition late_call_before_grant (w : World) : list Event :=
  [Click; Acquired (inr sample_stream); Tick 1 w sample_video; Click;
   Click; Settled 0; Acquired (inr second_stream)].

(** A run that ends with the camera off, a camera error, a classification
    error and the classification PLASTIC all on display. *)
Definition cluttered_idle : list Event :=
  [Click; Click; Acquired (inr sample_stream);
   Tick 1 world_offline sample_video;
   Tick 1 (world_answering "PLASTIC" "0.875" 0.875) sample_video;
   Click; Settled 0; Settled 0; Acquired (inl denied)].



(** * Properties of the classification client *)

(** A call on a surface that is ready, with a canvas that gives a context:
    one frame is captured, one request is sent, and the completion is that
    of the steps after the request. *)
Lemma classifyWaste_ready (w : World) (v : HTMLVideoElement) :
  videoWidth v ≠ 0%N → videoHeight v ≠ 0%N → getContext w = true →
  classifyWaste w (Some v) =
    ([CaptureFrame v; RemoteRequest (base64_part (toDataURL w v))],
     bindC (generateContent w (base64_part (toDataURL w v))) (fun text =>
     bindC (parse_text w text) (fun resultJson =>
     bindC (RequireObjectCoercible resultJson) (fun obj =>
     bindC (js_lt w (getProp obj "confidence") 0.75%float) (fun low =>
       inr (if low then UNKNOWN
            else if strict_eq_string (getProp obj "classification") "PLASTIC" then PLASTIC
            else if strict_eq_string (getProp obj "classification") "NON_PLASTIC" then NON_PLASTIC
            else UNKNOWN)))))).
Proof.
  intros Hw Hh Hctx. unfold classifyWaste, captureFrame.
  apply N.eqb_neq in Hw, Hh. rewrite Hw, Hh, Hctx. cbn [orb].
  unfold act, lift, ret, bindT. cbn [app].
  destruct (generateContent w _) as [e|text]; cbn [bindC]; [reflexivity|].
  destruct (parse_text w text) as [e|resultJson]; cbn [bindC]; [reflexivity|].
  destruct (RequireObjectCoercible resultJson) as [e|obj]; cbn [bindC]; [reflexivity|].
  destruct (js_lt w _ _) as [e|low]; cbn [bindC]; [reflexivity|].
  destruct low; [reflexivity|].
  cbn [WasteType_value].
  destruct (strict_eq_string _ "PLASTIC"); [reflexivity|].
  destruct (strict_eq_string _ "NON_PLASTIC"); reflexivity.
Qed.

Lemma js_ge_not_lt (w : World) (v : JSValue) (y : float) :
  js_ge w v y = inr true → js_lt w v y = inr false.
Proof.
  unfold js_ge, js_lt. destruct (IsLessThan w v y) as [e|[[|]|]]; cbn; congruence.
Qed.

Lemma strict_eq_string_false (s s' : string) : s ≠ s' → strict_eq_string (JSString s) s' = false.
Proof. intros H. cbn. apply bool_decide_eq_false. exact H. Qed.

(** C1.  The answer of the model has been parsed into an object with the
    fields [classification] (the label) and [confidence].  If
    [confidence < 0.75], [classifyWaste] returns UNKNOWN whatever the label;
    if [confidence >= 0.75] and the label is PLASTIC or NON_PLASTIC, it
    returns that label; if [confidence >= 0.75] and the label is any other
    string, it returns UNKNOWN. *)
Theorem classifyWaste_threshold
    (w : World) (v : HTMLVideoElement) (text : option string)
    (props : list (string * JSValue)) (label confidence : JSValue) :
  videoWidth v ≠ 0%N → videoHeight v ≠ 0%N → getContext w = true →
  generateContent w (base64_part (toDataURL w v)) = inr text →
  parse_text w text = inr (JSObject props) →
  assoc "classification" props = Some label →
  assoc "confidence" props = Some confidence →
  (js_lt w confidence 0.75%float = inr true →
     snd (classifyWaste w (Some v)) = inr UNKNOWN) ∧
  (js_ge w confidence 0.75%float = inr true →
     ∀ t : WasteType, t = PLASTIC ∨ t = NON_PLASTIC →
       label = JSString (WasteType_value t) →
       snd (classifyWaste w (Some v)) = inr t) ∧
  (js_ge w confidence 0.75%float = inr true →
     ∀ other : string, label = JSString other →
       other ≠ "PLASTIC" → other ≠ "NON_PLASTIC" →
       snd (classifyWaste w (Some v)) = inr UNKNOWN).
Proof.
  intros Hw Hh Hctx Hreply Hparse Hlabel Hconf.
  rewrite (classifyWaste_ready w v Hw Hh Hctx). cbn [snd].
  rewrite Hreply. cbn [bindC]. rewrite Hparse. cbn [bindC RequireObjectCoercible getProp].
  rewrite Hlabel, Hconf. cbn [default from_option id].
  split; [|split].
  - intros Hlow. rewrite Hlow. reflexivity.
  - intros Hge t Ht ->. rewrite (js_ge_not_lt _ _ _ Hge). cbn [bindC].
    destruct Ht as [-> | ->]; reflexivity.
  - intros Hge other -> Hp Hn. rewrite (js_ge_not_lt _ _ _ Hge). cbn [bindC].
    rewrite (strict_eq_string_false _ _ Hp), (strict_eq_string_false _ _ Hn).
    reflexivity.
Qed.

Lemma classifyWaste_threshold_witness :
  (js_lt (world_answering "PLASTIC" "0.5" 0.5) (JSNumber 0.5) 0.75%float = inr true ∧
   snd (classifyWaste (world_answering "PLASTIC" "0.5" 0.5) (Some sample_video)) = inr UNKNOWN) ∧
  (js_ge (world_answering "NON_PLASTIC" "0.75" 0.75) (JSNumber 0.75) 0.75%float = inr true ∧
   snd (classifyWaste (world_answering "NON_PLASTIC" "0.75" 0.75) (Some sample_video)) = inr NON_PLASTIC) ∧
  (js_ge (world_answering "GLASS" "0.875" 0.875) (JSNumber 0.875) 0.75%float = inr true ∧
   snd (classifyWaste (world_answering "GLASS" "0.875" 0.875) (Some sample_video)) = inr UNKNOWN).
Proof.
  split; [|split].
  - split; [reflexivity|].
    apply (proj1 (classifyWaste_threshold (world_answering "PLASTIC" "0.5" 0.5) sample_video
             _ _ (JSString "PLASTIC") (JSNumber 0.5)
             ltac:(discriminate) ltac:(discriminate) eq_refl eq_refl eq_refl eq_refl eq_refl)).
    reflexivity.
  - split; [reflexivity|].
    apply (proj1 (proj2 (classifyWaste_threshold (world_answering "NON_PLASTIC" "0.75" 0.75) sample_video
             _ _ (JSString "NON_PLASTIC") (JSNumber 0.75)
             ltac:(discriminate) ltac:(discriminate) eq_refl eq_refl eq_refl eq_refl eq_refl)));
      [reflexivity | right; reflexivity | reflexivity].
  - split; [reflexivity|].
    apply (proj2 (proj2 (classifyWaste_threshold (world_answering "GLASS" "0.875" 0.875) sample_video
             _ _ (JSString "GLASS") (JSNumber 0.875)
             ltac:(discriminate) ltac:(discriminate) eq_refl eq_refl eq_refl eq_refl eq_refl))
           eq_refl "GLASS" eq_refl); discriminate.
Defined.

(** C2.  When the video element is absent, or its intrinsic width or height
    is zero, [classifyWaste] returns UNKNOWN at once: it captures no frame
    and sends no request. *)
Theorem classifyWaste_not_ready (w : World) (videoElement : option HTMLVideoElement) :
  (videoElement = None ∨
   ∃ v, videoElement = Some v ∧ (videoWidth v = 0%N ∨ videoHeight v = 0%N)) →
  classifyWaste w videoElement = ([], inr UNKNOWN).
Proof.
  intros [-> | (v & -> & Hzero)]; [reflexivity|].
  unfold classifyWaste.
  destruct Hzero as [H | H]; rewrite H; cbn [N.eqb orb]; [reflexivity|].
  rewrite orb_true_r. reflexivity.
Qed.

Lemma classifyWaste_not_ready_witness :
  classifyWaste (world_answering "PLASTIC" "0.875" 0.875)
    (Some {| videoWidth := 0; videoHeight := 480 |}) = ([], inr UNKNOWN).
Proof.
  apply classifyWaste_not_ready. right.
  exists {| videoWidth := 0; videoHeight := 480 |}. split; [reflexivity|]. left. reflexivity.
Defined.





(** * Properties of the session controller *)

(** ** What the handlers leave alone *)

Lemma stop_tracks_fields (held : option MediaStream) (s : App) :
  isCameraActive (stop_tracks held s) = isCameraActive s ∧
  stream (stop_tracks held s) = stream s ∧
  classification (stop_tracks held s) = classification s ∧
  error (stop_tracks held s) = error s ∧
  classificationError (stop_tracks held s) = classificationError s ∧
  classificationIntervalRef (stop_tracks held s) = classificationIntervalRef s ∧
  timers (stop_tracks held s) = timers s ∧
  next_timer (stop_tracks held s) = next_timer s ∧
  pending (stop_tracks held s) = pending s ∧
  acquiring (stop_tracks held s) = acquiring s.
Proof.
  destruct held as [m|]; [|cbn; repeat split; reflexivity].
  cbn [stop_tracks]. generalize s. clear s.
  induction (getTracks m) as [|t l IH]; intros s; [cbn; repeat split; reflexivity|].
  cbn [foldl]. destruct (IH (track_stop s t)) as (?&?&?&?&?&?&?&?&?&?).
  repeat split; etransitivity; eauto.
Qed.

Lemma stop_tracks_ended (held : option MediaStream) (s : App) :
  ended s ⊆ ended (stop_tracks held s) ∧
  ∀ m t, held = Some m → t ∈ getTracks m → t ∈ ended (stop_tracks held s).
Proof.
  destruct held as [m|]; [|cbn; split; [set_solver | discriminate]].
  cbn [stop_tracks].
  assert (∀ l s, ended s ⊆ ended (foldl track_stop s l) ∧
                 ∀ t, t ∈ l → t ∈ ended (foldl track_stop s l)) as H.
  { induction l as [|a l IH]; intros s0; cbn [foldl]; [set_solver|].
    destruct (IH (track_stop s0 a)) as [Hsub Hin]. cbn [track_stop ended] in Hsub.
    split; [etransitivity; [apply union_subseteq_r | exact Hsub]|].
    intros t Ht. apply elem_of_cons in Ht as [-> | Ht]; [|auto].
    apply Hsub, elem_of_union_l, elem_of_singleton. reflexivity. }
  destruct (H (getTracks m) s) as [Hsub Hin].
  split; [exact Hsub|]. intros m' t [= <-]. apply Hin.
Qed.

Lemma stop_tracks_log (held : option MediaStream) (s : App) :
  log (stop_tracks held s) =
  log s ++ match held with Some m => TrackStop <$> getTracks m | None => [] end.
Proof.
  destruct held as [m|]; cbn [stop_tracks]; [|rewrite app_nil_r; reflexivity].
  generalize s. clear s.
  induction (getTracks m) as [|t l IH]; intros s; cbn [foldl fmap list_fmap].
  - rewrite app_nil_r. reflexivity.
  - rewrite IH. cbn [track_stop log]. rewrite <- app_assoc. reflexivity.
Qed.

Lemma stopClassification_ref (s : App) :
  classificationIntervalRef (stopClassification s) = None.
Proof. unfold stopClassification. destruct (classificationIntervalRef s) eqn:E; [reflexivity | exact E]. Qed.

Lemma stopClassification_timers (s : App) :
  owned s → timers (stopClassification s) = ∅.
Proof.
  unfold owned, stopClassification.
  destruct (classificationIntervalRef s) as [id|]; [|auto].
  intros [closure H]. cbn [clearInterval timers]. rewrite H.
  apply delete_singleton_eq.
Qed.

Lemma stopClassification_gone (s : App) (id : positive) :
  classificationIntervalRef s = Some id → timers (stopClassification s) !! id = None.
Proof.
  intros H. unfold stopClassification. rewrite H. cbn [clearInterval timers].
  apply lookup_delete_eq.
Qed.

Lemma stopClassification_idle (s : App) :
  classificationIntervalRef s = None → stopClassification s = s.
Proof. intros H. unfold stopClassification. rewrite H. reflexivity. Qed.

Lemma Inv_owned (s : App) : Inv s → owned s.
Proof.
  unfold Inv, owned. destruct (classificationIntervalRef s); intros [_ H]; eauto.
Qed.

Lemma same_ui_refl (s : App) : same_ui s s.
Proof. repeat split. Qed.

Lemma same_ui_trans (s1 s2 s3 : App) : same_ui s1 s2 → same_ui s2 s3 → same_ui s1 s3.
Proof.
  intros (?&?&?&?&?&?&?) (?&?&?&?&?&?&?). repeat split; etransitivity; eauto.
Qed.

Lemma stopClassification_ui (s : App) : same_ui s (stopClassification s).
Proof.
  unfold stopClassification. destruct (classificationIntervalRef s); repeat split.
Qed.

Lemma startClassification_ui (closure : option string) (s : App) :
  same_ui s (startClassification closure s).
Proof.
  unfold startClassification, stopClassification.
  destruct (classificationIntervalRef s); repeat split.
Qed.

Lemma stop_tracks_ui (held : option MediaStream) (s : App) : same_ui s (stop_tracks held s).
Proof.
  destruct (stop_tracks_fields held s) as (?&?&?&?&?&?&?&?&?&?). repeat split; assumption.
Qed.

Create HintDb ui.

#[local] Hint Resolve same_ui_refl stopClassification_ui startClassification_ui
  stop_tracks_ui : ui.

Lemma useEffect_ui (prev s : App) : same_ui s (useEffect prev s).
Proof.
  unfold useEffect.
  destruct (negb _ || negb _); destruct (negb (bool_decide (stream prev = stream s)));
    try destruct (isCameraActive _);
    eauto 6 using same_ui_trans with ui.
Qed.

Lemma stopClassification_ended (s : App) : ended (stopClassification s) = ended s.
Proof. unfold stopClassification. destruct (classificationIntervalRef s); reflexivity. Qed.

Lemma startClassification_ended (closure : option string) (s : App) :
  ended (startClassification closure s) = ended s.
Proof.
  unfold startClassification, stopClassification.
  destruct (classificationIntervalRef s); reflexivity.
Qed.

Lemma useEffect_ended (prev s : App) : ended s ⊆ ended (useEffect prev s).
Proof.
  unfold useEffect.
  destruct (negb _ || negb _); destruct (negb (bool_decide (stream prev = stream s)));
    try destruct (isCameraActive _);
    rewrite ?startClassification_ended, ?stopClassification_ended;
    try (etransitivity; [|apply stop_tracks_ended]);
    rewrite ?stopClassification_ended; reflexivity.
Qed.

(** The effects establish the invariant whenever they run, and keep it
    otherwise. *)
Lemma useEffect_Inv (prev s : App) :
  owned s →
  (isCameraActive prev = isCameraActive s →
   classificationError prev = classificationError s → Inv s) →
  Inv (useEffect prev s).
Proof.
  intros Hown Hsame. unfold useEffect.
  destruct (stop_tracks_fields (stream prev) (stopClassification s))
    as (Ha & _ & _ & _ & He & Hr & Ht & _).
  destruct (stop_tracks_fields (stream prev) s) as (Ha' & _ & _ & _ & He' & Hr' & Ht' & _).
  destruct (stopClassification_ui s) as (Hsa & _ & _ & _ & Hse & _).
  pose proof (stopClassification_ref s) as Hnone.
  pose proof (stopClassification_timers s Hown) as Hempty.
  destruct (negb (bool_decide (isCameraActive prev = isCameraActive s)) ||
            negb (bool_decide (classificationError prev = classificationError s))) eqn:Hch.
  - assert (∀ s2, classificationIntervalRef s2 = None → timers s2 = ∅ →
                  Inv (if isCameraActive s2
                       then startClassification (classificationError s2) s2
                       else stopClassification s2)) as Hbody.
    { intros s2 Hr2 Ht2. destruct (isCameraActive s2) eqn:Hact.
      - unfold startClassification. rewrite (stopClassification_idle s2 Hr2).
        unfold Inv. cbn [setInterval classificationIntervalRef isCameraActive timers
                         classificationError].
        rewrite Ht2. split; [exact Hact | reflexivity].
      - rewrite (stopClassification_idle s2 Hr2). unfold Inv. rewrite Hr2. auto. }
    destruct (negb (bool_decide (stream prev = stream s))); apply Hbody; congruence.
  - apply orb_false_iff in Hch as [H1 H2].
    apply negb_false_iff, bool_decide_eq_true in H1, H2.
    specialize (Hsame H1 H2).
    destruct (negb (bool_decide (stream prev = stream s))); [|exact Hsame].
    unfold Inv in *. rewrite Hr', Ha', He', Ht'. exact Hsame.
Qed.

Lemma Inv_transfer (s h : App) :
  Inv s →
  classificationIntervalRef h = classificationIntervalRef s →
  timers h = timers s →
  isCameraActive s = isCameraActive h →
  classificationError s = classificationError h →
  Inv h.
Proof. unfold Inv. intros H -> -> <- <-. exact H. Qed.

Lemma owned_transfer (s h : App) :
  owned s →
  classificationIntervalRef h = classificationIntervalRef s →
  timers h = timers s →
  owned h.
Proof. unfold owned. intros H -> ->. exact H. Qed.

(** ** [stopCamera] *)

Lemma stopCamera_fields (s : App) :
  isCameraActive (stopCamera s) = false ∧
  stream (stopCamera s) = None ∧
  classification (stopCamera s) = UNKNOWN ∧
  error (stopCamera s) = error s ∧
  classificationError (stopCamera s) = None ∧
  classificationIntervalRef (stopCamera s) = None ∧
  timers (stopCamera s) = timers (stopClassification s) ∧
  ended (stopCamera s) = ended (stop_tracks (stream s) (stopClassification s)) ∧
  log (stopCamera s) = log (stop_tracks (stream s) (stopClassification s)).
Proof.
  unfold stopCamera.
  destruct (stop_tracks_fields (stream s) (stopClassification s))
    as (_ & _ & _ & He & _ & Hr & Ht & _).
  destruct (stopClassification_ui s) as (_ & _ & _ & Hse & _).
  cbn. rewrite Hr, Ht, He, Hse, stopClassification_ref. repeat split.
Qed.

Lemma stopCamera_Inv (s : App) : owned s → Inv (stopCamera s).
Proof.
  intros Hown. destruct (stopCamera_fields s) as (Ha & _ & _ & _ & _ & Hr & Ht & _).
  unfold Inv. rewrite Hr, Ha, Ht, (stopClassification_timers s Hown). auto.
Qed.

(** ** The invariant holds in every reachable state *)

Lemma mount_Inv : Inv mount.
Proof. split; reflexivity. Qed.

Lemma step_Inv (e : Event) (s s' : App) : Inv s → step e s = Some s' → Inv s'.
Proof.
  intros HI Hstep. pose proof (Inv_owned s HI) as Hown.
  destruct e as [|r|id w v|k]; cbn [step] in Hstep.
  - injection Hstep as <-. destruct (isCameraActive s) eqn:Hact.
    + apply useEffect_Inv; [apply Inv_owned|intros _ _]; apply stopCamera_Inv, Hown.
    + apply useEffect_Inv.
      * apply (owned_transfer s); [exact Hown | reflexivity | reflexivity].
      * intros H1 H2.
        apply (Inv_transfer s); [exact HI | reflexivity | reflexivity | exact H1 | exact H2].
  - destruct (acquiring s) as [|n]; [discriminate|]. injection Hstep as <-.
    apply useEffect_Inv.
    + destruct r; apply (owned_transfer s); auto.
    + intros H1 H2. destruct r; apply (Inv_transfer s); auto.
  - destruct (timers s !! id) as [closure|]; [|discriminate]. injection Hstep as <-.
    unfold tick. destruct (videoRef s v); [|exact HI].
    apply (Inv_transfer s); auto.
  - destruct (pending s !! k) as [[closure r]|]; [|discriminate]. injection Hstep as <-.
    apply useEffect_Inv.
    + destruct r; cbn [tick_settled]; [|destruct (truthy closure)];
        apply (owned_transfer s); auto.
    + intros H1 H2. revert H1 H2.
      destruct r; cbn [tick_settled]; [|destruct (truthy closure)];
        intros H1 H2; apply (Inv_transfer s); auto.
Qed.

Lemma run_Inv (events : list Event) (s s' : App) : Inv s → run events s = Some s' → Inv s'.
Proof.
  revert s. induction events as [|e rest IH]; intros s HI Hrun; cbn [run] in Hrun.
  - injection Hrun as <-. exact HI.
  - destruct (step e s) as [s1|] eqn:Hstep; [|discriminate].
    apply (IH s1); [|exact Hrun]. exact (step_Inv e s s1 HI Hstep).
Qed.

Lemma reachable_Inv (s : App) : reachable s → Inv s.
Proof. intros [events Hrun]. exact (run_Inv events mount s mount_Inv Hrun). Qed.

Lemma active_state_reachable : reachable active_state.
Proof. exists [Click; Acquired (inr sample_stream)]. vm_compute. reflexivity. Defined.

Lemma Inv_active (s : App) :
  Inv s → isCameraActive s = true →
  ∃ id, classificationIntervalRef s = Some id ∧ timers s = {[id := classificationError s]}.
Proof.
  unfold Inv. destruct (classificationIntervalRef s) as [id|]; intros [Ha Ht] Hact.
  - exists id. auto.
  - congruence.
Qed.

Lemma Inv_idle (s : App) :
  Inv s → isCameraActive s = false → classificationIntervalRef s = None ∧ timers s = ∅.
Proof.
  unfold Inv. destruct (classificationIntervalRef s) as [id|]; intros [Ha Ht] Hact.
  - congruence.
  - auto.
Qed.

(** After the effects of a render in which the camera is not active, no
    interval is held. *)
Lemma useEffect_idle (prev s : App) :
  isCameraActive s = false → classificationIntervalRef s = None →
  classificationIntervalRef (useEffect prev s) = None ∧
  timers (useEffect prev s) = timers s.
Proof.
  intros Hact Href. unfold useEffect.
  rewrite (stopClassification_idle s Href).
  destruct (stop_tracks_fields (stream prev) s) as (Ha & _ & _ & _ & _ & Hr & Ht & _).
  rewrite Href in Hr. rewrite Hact in Ha.
  destruct (negb _ || negb _); destruct (negb (bool_decide (stream prev = stream s)));
    rewrite ?Ha, ?Hact.
  - rewrite (stopClassification_idle _ Hr). auto.
  - rewrite (stopClassification_idle _ Href). auto.
  - auto.
  - auto.
Qed.

(** The state after [stopCamera] and the render that follows it. *)
Lemma stopCamera_rendered (s : App) :
  let s1 := useEffect s (stopCamera s) in
  classificationIntervalRef s1 = None ∧
  timers s1 = timers (stopClassification s) ∧
  stream s1 = None ∧
  isCameraActive s1 = false ∧
  classification s1 = UNKNOWN ∧
  classificationError s1 = None ∧
  ended (stopCamera s) ⊆ ended s1.
Proof.
  intros s1.
  destruct (stopCamera_fields s) as (Ha & Hs & Hc & _ & He & Hr & Ht & _).
  destruct (useEffect_ui s (stopCamera s)) as (Ha' & Hs' & Hc' & _ & He' & _).
  destruct (useEffect_idle s (stopCamera s) Ha Hr) as [Hr' Ht'].
  fold s1 in Ha', Hs', Hc', He', Hr', Ht'.
  rewrite Hr', Ht', Hs', Ha', Hc', He', Ht.
  repeat split; auto. apply useEffect_ended.
Qed.

(** C3.  After [stopCamera], from any state, both when the handler returns
    and after the render that follows: the timer handle is null and its
    interval is gone (no interval at all is left, as the component holds no
    other), every track of the stream that was held has been stopped, the
    stream reference is cleared, the camera is not active, the classification
    is UNKNOWN and the transient classification error is cleared. *)
Theorem stopCamera_clears (s s' : App) :
  s' = stopCamera s ∨ s' = useEffect s (stopCamera s) →
  classificationIntervalRef s' = None ∧
  (∀ id, classificationIntervalRef s = Some id → timers s' !! id = None) ∧
  (owned s → timers s' = ∅) ∧
  (∀ m t, stream s = Some m → t ∈ getTracks m → t ∈ ended s') ∧
  stream s' = None ∧
  isCameraActive s' = false ∧
  classification s' = UNKNOWN ∧
  classificationError s' = None.
Proof.
  destruct (stopCamera_fields s) as (Ha & Hs & Hc & _ & He & Hr & Ht & Hen & _).
  assert (∀ m t, stream s = Some m → t ∈ getTracks m → t ∈ ended (stopCamera s)) as Htracks.
  { intros m t Hm Hin. rewrite Hen.
    exact (proj2 (stop_tracks_ended (stream s) (stopClassification s)) m t Hm Hin). }
  intros [-> | ->].
  - rewrite Hr, Hs, Ha, Hc, He, Ht. repeat split; auto.
    + intros id Hid. apply stopClassification_gone, Hid.
    + apply stopClassification_timers.
  - destruct (stopCamera_rendered s) as (Hr' & Ht' & Hs' & Ha' & Hc' & He' & Hsub).
    rewrite Hr', Ht', Hs', Ha', Hc', He'. repeat split; auto.
    + intros id Hid. apply stopClassification_gone, Hid.
    + apply stopClassification_timers.
    + intros m t Hm Hin. apply Hsub. eauto.
Qed.

Lemma stopCamera_clears_witness :
  owned active_state ∧
  classificationIntervalRef (useEffect active_state (stopCamera active_state)) = None ∧
  timers (useEffect active_state (stopCamera active_state)) = ∅ ∧
  70 ∈ ended (useEffect active_state (stopCamera active_state)) ∧
  classification (useEffect active_state (stopCamera active_state)) = UNKNOWN.
Proof.
  pose proof (stopCamera_clears active_state _ (or_intror eq_refl))
    as (Hr & _ & Ht & Hen & _ & _ & Hc & _).
  assert (owned active_state) as Hown by (exists None; reflexivity).
  split; [exact Hown|]. split; [exact Hr|]. split; [exact (Ht Hown)|].
  split; [|exact Hc].
  apply (Hen sample_stream 70); [reflexivity|]. apply list_elem_of_singleton. reflexivity.
Defined.

(** ** [startCamera] *)

Lemma startCamera_Inv (s : App) : Inv s → Inv (useEffect s (startCamera s)).
Proof.
  intros HI. apply useEffect_Inv.
  - apply (owned_transfer s); [apply Inv_owned, HI | reflexivity | reflexivity].
  - intros H1 H2.
    apply (Inv_transfer s); [exact HI | reflexivity | reflexivity | exact H1 | exact H2].
Qed.

Lemma startCamera_settled_Inv (r : Completion MediaStream) (s : App) :
  Inv s → Inv (useEffect s (startCamera_settled r s)).
Proof.
  intros HI. apply useEffect_Inv.
  - destruct r; apply (owned_transfer s); auto using Inv_owned.
  - intros H1 H2. destruct r; apply (Inv_transfer s); auto.
Qed.

(** As stated, C4 fails.  A start that is followed by a granted camera can
    enter the active state, with the first tick ready to fire, while a slot
    is not reset: the camera error of an earlier attempt that was refused in
    the meantime, or the classification or the classification error of a
    call of the previous session that settled in the meantime. *)
Lemma active_with_stale_slots :
  (isCameraActive <$> run refused_then_granted mount = Some true ∧
   error <$> run refused_then_granted mount
   = Some (Some "Camera access denied. Please enable camera permissions for this site in your browser settings.") ∧
   is_Some (run (refused_then_granted ++ [Tick 1 world_offline sample_video]) mount)) ∧
  (isCameraActive
     <$> run (late_call_before_grant (world_answering "PLASTIC" "0.875" 0.875)) mount
   = Some true ∧
   classification
     <$> run (late_call_before_grant (world_answering "PLASTIC" "0.875" 0.875)) mount
   = Some PLASTIC ∧
   is_Some (run (late_call_before_grant (world_answering "PLASTIC" "0.875" 0.875)
                 ++ [Tick 2 world_offline sample_video]) mount)) ∧
  (isCameraActive <$> run (late_call_before_grant world_offline) mount = Some true ∧
   classificationError <$> run (late_call_before_grant world_offline) mount
   = Some (Some "Classification failed. Please check your network connection.") ∧
   is_Some (run (late_call_before_grant world_offline
                 ++ [Tick 2 world_offline sample_video]) mount)).
Proof.
  repeat split; try (vm_compute; reflexivity); vm_compute; eauto.
Qed.

Lemma step_stays_idle (e : Event) (s s' : App) :
  step e s = Some s' → isCameraActive s = false → granted [e] = [] →
  isCameraActive s' = false.
Proof.
  intros Hstep Hact Hgr. destruct e as [|r|id w v|k]; cbn [step] in Hstep.
  - injection Hstep as <-. rewrite Hact.
    destruct (useEffect_ui s (startCamera s)) as (Ha & _). rewrite Ha. exact Hact.
  - destruct (acquiring s) as [|n]; [discriminate|]. injection Hstep as <-.
    destruct (useEffect_ui s (startCamera_settled r (set_acquiring n s))) as (Ha & _).
    rewrite Ha. destruct r as [err|m]; [reflexivity | discriminate Hgr].
  - destruct (timers s !! id); [|discriminate]. injection Hstep as <-.
    unfold tick. destruct (videoRef s v); exact Hact.
  - destruct (pending s !! k) as [[closure r]|]; [|discriminate]. injection Hstep as <-.
    destruct (useEffect_ui s (tick_settled closure r (set_pending (delete k (pending s)) s)))
      as (Ha & _).
    rewrite Ha. destruct r; cbn [tick_settled]; [|destruct (truthy closure)]; exact Hact.
Qed.

Lemma granted_cons_nil (e : Event) (rest : list Event) :
  granted (e :: rest) = [] → granted [e] = [] ∧ granted rest = [].
Proof.
  destruct e as [|[err|m]|id w v|k]; cbn [granted]; auto. discriminate.
Qed.

(** Without a granted camera, a camera that is not active stays so, and no
    tick can fire. *)
Lemma run_stays_idle (events : list Event) (s s' : App) :
  Inv s → isCameraActive s = false → run events s = Some s' → granted events = [] →
  isCameraActive s' = false ∧ timers s' = ∅ ∧ ∀ id w v, step (Tick id w v) s' = None.
Proof.
  revert s. induction events as [|e rest IH]; intros s HI Hact Hrun Hgr; cbn [run] in Hrun.
  - injection Hrun as <-. destruct (Inv_idle s HI Hact) as [_ Ht].
    split; [exact Hact|]. split; [exact Ht|].
    intros id w v. cbn [step]. rewrite Ht, lookup_empty. reflexivity.
  - destruct (step e s) as [s1|] eqn:Hstep; [|discriminate].
    destruct (granted_cons_nil e rest Hgr) as [He Hrest].
    exact (IH s1 (step_Inv e s s1 HI Hstep) (step_stays_idle e s s1 Hstep Hact He)
              Hrun Hrest).
Qed.

(** A granted camera: the stream is stored, the camera is active and the
    interval runs; the three slots are as the grant found them. *)
Lemma grant_enters_active (s : App) (m : MediaStream) :
  Inv s → acquiring s ≠ 0 →
  ∃ s2, step (Acquired (inr m)) s = Some s2 ∧
        stream s2 = Some m ∧ isCameraActive s2 = true ∧
        classification s2 = classification s ∧ error s2 = error s ∧
        classificationError s2 = classificationError s ∧
        ∃ id, classificationIntervalRef s2 = Some id ∧
              timers s2 = {[id := classificationError s]} ∧
              ∀ w v, is_Some (step (Tick id w v) s2).
Proof.
  intros HI Hacq. destruct (acquiring s) as [|n] eqn:Hn; [contradiction|].
  eexists. split; [cbn [step]; rewrite Hn; reflexivity|].
  set (s2 := useEffect s (startCamera_settled (inr m) (set_acquiring n s))).
  assert (step (Acquired (inr m)) s = Some s2) as Hstep
    by (cbn [step]; rewrite Hn; reflexivity).
  pose proof (step_Inv _ _ _ HI Hstep) as HI2.
  destruct (useEffect_ui s (startCamera_settled (inr m) (set_acquiring n s)))
    as (Ha & Hs & Hc & He & Hce & _).
  fold s2 in Ha, Hs, Hc, He, Hce. cbn in Ha, Hs, Hc, He, Hce.
  destruct (Inv_active s2 HI2 Ha) as (id & Hr & Ht). rewrite Hce in Ht.
  split; [exact Hs|]. split; [exact Ha|]. split; [exact Hc|]. split; [exact He|].
  split; [exact Hce|].
  exists id. split; [exact Hr|]. split; [exact Ht|].
  intros w v. cbn [step]. rewrite Ht, lookup_singleton_eq. eauto.
Qed.

(** C4, amended.  Every invocation of [startCamera] (a click in a reachable
    state in which the camera is not active) sets the classification to
    UNKNOWN, clears both error slots and asks for the camera, and no tick
    can fire from then on until a request for the camera is granted.  When
    the grant follows the click directly, the stream is stored, the camera is
    active with the three slots still reset, and the interval runs.  When
    other events come in between, the grant still stores the stream,
    activates the camera and starts the interval, and leaves the three slots
    as those events left them. *)
Theorem startCamera_resets (s : App) :
  reachable s → isCameraActive s = false →
  ∃ s1,
    step Click s = Some s1 ∧
    (classification s1 = UNKNOWN ∧ error s1 = None ∧ classificationError s1 = None) ∧
    acquiring s1 = S (acquiring s) ∧
    log s1 = log s ++ [GetUserMedia] ∧
    (∀ events s', run events s1 = Some s' → granted events = [] →
       isCameraActive s' = false ∧ timers s' = ∅ ∧
       ∀ id w v, step (Tick id w v) s' = None) ∧
    (∀ m, ∃ s2,
       step (Acquired (inr m)) s1 = Some s2 ∧
       stream s2 = Some m ∧ isCameraActive s2 = true ∧
       classification s2 = UNKNOWN ∧ error s2 = None ∧ classificationError s2 = None ∧
       ∃ id, classificationIntervalRef s2 = Some id ∧ timers s2 = {[id := None]} ∧
             ∀ w v, is_Some (step (Tick id w v) s2)) ∧
    (∀ events s' m, run events s1 = Some s' → acquiring s' ≠ 0 →
       ∃ s2,
         step (Acquired (inr m)) s' = Some s2 ∧
         stream s2 = Some m ∧ isCameraActive s2 = true ∧
         classification s2 = classification s' ∧ error s2 = error s' ∧
         classificationError s2 = classificationError s' ∧
         ∃ id, classificationIntervalRef s2 = Some id ∧
               timers s2 = {[id := classificationError s']} ∧
               ∀ w v, is_Some (step (Tick id w v) s2)).
Proof.
  intros Hreach Hact. pose proof (reachable_Inv s Hreach) as HI.
  set (s1 := useEffect s (startCamera s)).
  assert (step Click s = Some s1) as Hstep by (cbn [step]; rewrite Hact; reflexivity).
  pose proof (step_Inv _ _ _ HI Hstep) as HI1.
  destruct (useEffect_ui s (startCamera s)) as (Ha & Hs & Hc & He & Hce & _ & Hq).
  fold s1 in Ha, Hs, Hc, He, Hce, Hq. cbn in Ha, Hs, Hc, He, Hce, Hq.
  rewrite Hact in Ha.
  exists s1. split; [exact Hstep|]. split; [auto|]. split; [exact Hq|]. split; [|split; [|split]].
  - destruct (Inv_idle s HI Hact) as [Hr _].
    subst s1. unfold useEffect.
    rewrite (bool_decide_eq_true_2 (stream s = stream (startCamera s))) by reflexivity.
    cbn [negb].
    rewrite (stopClassification_idle (startCamera s)) by exact Hr.
    destruct (negb _ || negb _); [|reflexivity].
    change (isCameraActive (startCamera s)) with (isCameraActive s). rewrite Hact.
    rewrite (stopClassification_idle (startCamera s)) by exact Hr. reflexivity.
  - intros events s' Hrun Hgr. exact (run_stays_idle events s1 s' HI1 Ha Hrun Hgr).
  - intros m.
    assert (acquiring s1 ≠ 0) as Hacq by (rewrite Hq; discriminate).
    destruct (grant_enters_active s1 m HI1 Hacq)
      as (s2 & H2 & Hs2 & Ha2 & Hc2 & He2 & Hce2 & id & Hr2 & Ht2 & Htick).
    exists s2. rewrite Hc in Hc2. rewrite He in He2. rewrite Hce in Hce2, Ht2.
    repeat (split; [assumption|]). exists id. auto.
  - intros events s' m Hrun Hacq.
    exact (grant_enters_active s' m (run_Inv events s1 s' HI1 Hrun) Hacq).
Qed.

Lemma startCamera_resets_witness :
  ∃ s s1,
    run cluttered_idle mount = Some s ∧
    isCameraActive s = false ∧
    classification s = PLASTIC ∧
    error s = Some "Camera access denied. Please enable camera permissions for this site in your browser settings." ∧
    classificationError s = Some "Classification failed. Please check your network connection." ∧
    step Click s = Some s1 ∧
    classification s1 = UNKNOWN ∧ error s1 = None ∧ classificationError s1 = None ∧
    is_Some (step (Acquired (inr second_stream)) s1).
Proof.
  set (s := default mount (run cluttered_idle mount)).
  assert (run cluttered_idle mount = Some s) as Hrun by (vm_compute; reflexivity).
  assert (reachable s) as Hreach by (exists cluttered_idle; exact Hrun).
  assert (isCameraActive s = false) as Hact by (vm_compute; reflexivity).
  destruct (startCamera_resets s Hreach Hact)
    as (s1 & H1 & (Hc & He & Hce) & _ & _ & _ & Hgrant & _).
  destruct (Hgrant second_stream) as (s2 & H2 & _).
  exists s, s1.
  split; [exact Hrun|]. split; [exact Hact|].
  split; [vm_compute; reflexivity|]. split; [vm_compute; reflexivity|].
  split; [vm_compute; reflexivity|]. split; [exact H1|].
  split; [exact Hc|]. split; [exact He|]. split; [exact Hce|]. eauto.
Defined.

(** C7.  When the camera cannot be acquired, the rejection is read as one of
    three reasons (permission denied, device not found, other), each with
    its own text; the camera error is set to the text of that reason, and
    the text for a denied permission mentions the permission.  The camera is
    not active afterwards, the stream is as it was, and no interval is
    started: none is held, and the effects record no [setInterval]. *)
Theorem startCamera_failure (s : App) (err : JSError) :
  Inv s →
  let s' := useEffect s (startCamera_settled (inl err) s) in
  error s' = Some (reason_text (spec_reason err)) ∧
  (∀ r r', reason_text r = reason_text r' → r = r') ∧
  (∀ msg, mentions "permission"
            (reason_text (spec_reason (DOMException "NotAllowedError" msg))) = true) ∧
  isCameraActive s' = false ∧
  stream s' = stream s ∧
  classificationIntervalRef s' = None ∧
  timers s' = ∅ ∧
  (∀ id, SetInterval id ∈ log s' → SetInterval id ∈ log s).
Proof.
  intros HI s'.
  pose proof (startCamera_settled_Inv (inl err) s HI) as HI'. fold s' in HI'.
  destruct (useEffect_ui s (startCamera_settled (inl err) s)) as (Ha & Hs & _ & He & _).
  fold s' in Ha, Hs, He. cbn in Ha, Hs, He.
  destruct (Inv_idle s' HI' Ha) as [Hr Ht].
  split.
  { rewrite He. f_equal. destruct err as [name m|name m]; [|reflexivity].
    cbn. repeat case_bool_decide; reflexivity. }
  split.
  { intros [] []; cbn; intros H; try reflexivity; discriminate H. }
  split; [intros msg; vm_compute; reflexivity|].
  split; [exact Ha|]. split; [exact Hs|]. split; [exact Hr|]. split; [exact Ht|].
  intros id. subst s'. unfold useEffect. cbn [startCamera_settled].
  set (h := setIsCameraActive false (setError (Some (message err)) s)).
  assert (log h = log s) as Hlog by reflexivity.
  assert (isCameraActive h = false) as Hact by reflexivity.
  assert (∀ x, SetInterval id ∈ log (stopClassification x) → SetInterval id ∈ log x) as Hstop.
  { intros x. unfold stopClassification. destruct (classificationIntervalRef x); [|auto].
    cbn [clearInterval log]. intros Hin. apply elem_of_app in Hin as [Hin | Hin]; [exact Hin|].
    apply list_elem_of_singleton in Hin. discriminate Hin. }
  assert (∀ held x, SetInterval id ∈ log (stop_tracks held x) → SetInterval id ∈ log x) as Htr.
  { intros held x. rewrite stop_tracks_log. intros Hin.
    apply elem_of_app in Hin as [Hin | Hin]; [exact Hin|].
    destruct held as [m|]; [|inversion Hin].
    apply list_elem_of_fmap in Hin as (t & Heq & _). discriminate Heq. }
  destruct (stop_tracks_fields (stream s) (stopClassification h)) as (Ha1 & _).
  destruct (stop_tracks_fields (stream s) h) as (Ha2 & _).
  destruct (stopClassification_ui h) as (Ha3 & _).
  rewrite <- Hlog.
  destruct (negb _ || negb _); destruct (negb (bool_decide (stream s = stream h)));
    rewrite ?Ha1, ?Ha2, ?Ha3, ?Hact; eauto.
Qed.

Lemma startCamera_failure_witness :
  Inv mount ∧
  error (useEffect mount
           (startCamera_settled (inl (DOMException "NotAllowedError" "Permission denied")) mount))
  = Some "Camera access denied. Please enable camera permissions for this site in your browser settings.".
Proof.
  split; [exact mount_Inv|].
  exact (proj1 (startCamera_failure mount
                  (DOMException "NotAllowedError" "Permission denied") mount_Inv)).
Defined.

(** ** The polling timer *)

Lemma stopClassification_log (s : App) :
  log (stopClassification s) =
  log s ++ match classificationIntervalRef s with
           | Some id => [ClearInterval id]
           | None => []
           end.
Proof.
  unfold stopClassification. destruct (classificationIntervalRef s); cbn.
  - reflexivity.
  - rewrite app_nil_r. reflexivity.
Qed.

(** C6.  In every reachable state an interval exists exactly when the
    camera is active, and there is never more than one: the only interval
    the browser holds is the one in [classificationIntervalRef].
    [startClassification] first clears the interval that is held and then
    sets the new one, which is the only one afterwards.  [stopCamera] clears
    the interval before it stops the tracks of the stream. *)
Theorem polling_timer_discipline :
  (∀ s, reachable s →
     (is_Some (classificationIntervalRef s) ↔ isCameraActive s = true) ∧
     (timers s ≠ ∅ ↔ isCameraActive s = true) ∧
     dom (timers s) = match classificationIntervalRef s with
                      | Some id => {[id]}
                      | None => ∅
                      end ∧
     size (timers s) ≤ 1) ∧
  (∀ s closure, owned s →
     timers (startClassification closure s) = {[next_timer s := closure]} ∧
     classificationIntervalRef (startClassification closure s) = Some (next_timer s) ∧
     log (startClassification closure s) =
       log s ++ match classificationIntervalRef s with
                | Some id => [ClearInterval id]
                | None => []
                end ++ [SetInterval (next_timer s)]) ∧
  (∀ s, log (stopCamera s) =
       log s ++ match classificationIntervalRef s with
                | Some id => [ClearInterval id]
                | None => []
                end ++ match stream s with
                       | Some m => TrackStop <$> getTracks m
                       | None => []
                       end).
Proof.
  split; [|split].
  - intros s Hreach. apply reachable_Inv in Hreach. unfold Inv in Hreach.
    destruct (classificationIntervalRef s) as [id|]; destruct Hreach as [Ha Ht];
      rewrite Ha, Ht.
    + split; [split; eauto|]. split; [|split].
      * split; [reflexivity|]. intros _ H.
        apply (f_equal (λ m : gmap positive (option string), m !! id)) in H.
        rewrite lookup_singleton_eq, lookup_empty in H. discriminate H.
      * apply dom_singleton_L.
      * rewrite map_size_singleton. lia.
    + split; [split; [intros [x Hx]|]; discriminate|]. split; [|split].
      * split; [intros H; contradiction|discriminate].
      * apply dom_empty_L.
      * rewrite map_size_empty. lia.
  - intros s closure Hown. unfold startClassification.
    pose proof (stopClassification_timers s Hown) as Ht.
    pose proof (stopClassification_log s) as Hl.
    assert (next_timer (stopClassification s) = next_timer s) as Hn
      by (unfold stopClassification; destruct (classificationIntervalRef s); reflexivity).
    cbn [setInterval timers classificationIntervalRef log].
    rewrite Ht, Hl, Hn, <- app_assoc. repeat split. 
  - intros s. destruct (stopCamera_fields s) as (_ & _ & _ & _ & _ & _ & _ & _ & Hl).
    rewrite Hl, stop_tracks_log, stopClassification_log, <- app_assoc. reflexivity.
Qed.

(** After two start/stop cycles no interval is left, every interval that was
    set has been cleared, and every track has been stopped. *)
Example two_cycles_leave_no_timer :
  timers <$> run two_cycles mount = Some ∅ ∧
  classificationIntervalRef <$> run two_cycles mount = Some None ∧
  ended <$> run two_cycles mount = Some {[70; 80; 81]} ∧
  List.filter (λ e, match e with SetInterval _ | ClearInterval _ => true | _ => false end)
    <$> (log <$> run two_cycles mount)
  = Some [SetInterval 1; ClearInterval 1; SetInterval 2; ClearInterval 2].
Proof. repeat split; vm_compute; reflexivity. Qed.

Lemma polling_timer_discipline_witness :
  reachable active_state ∧
  (is_Some (classificationIntervalRef active_state) ↔ isCameraActive active_state = true) ∧
  size (timers active_state) ≤ 1 ∧
  owned active_state ∧
  timers (startClassification None active_state) = {[2%positive := None]}.
Proof.
  split; [exact active_state_reachable|].
  destruct (proj1 polling_timer_discipline active_state active_state_reachable)
    as (H1 & _ & _ & H4).
  split; [exact H1|]. split; [exact H4|].
  assert (owned active_state) as Hown by (exists None; reflexivity).
  split; [exact Hown|].
  exact (proj1 (proj1 (proj2 polling_timer_discipline) active_state None Hown)).
Defined.

(** ** Stopping twice *)

Lemma stopCamera_fixed (s : App) :
  classificationIntervalRef s = None → stream s = None → isCameraActive s = false →
  classification s = UNKNOWN → classificationError s = None →
  stopCamera s = s.
Proof.
  destruct s. cbn. intros -> -> -> -> ->. reflexivity.
Qed.

Lemma useEffect_same (s : App) : useEffect s s = s.
Proof.
  unfold useEffect. rewrite !bool_decide_eq_true_2 by reflexivity. reflexivity.
Qed.

(** C10.  [stopClassification] and [stopCamera] are idempotent: a second
    call from the state the first call left changes nothing, and records no
    effect.  The same holds for the click that calls [stopCamera] together
    with the render that follows it.  (No handler can throw: [clearInterval]
    and [track.stop()] are reached only behind their guards, and neither
    throws.) *)
Theorem stop_idempotent (s : App) :
  stopClassification (stopClassification s) = stopClassification s ∧
  stopCamera (stopCamera s) = stopCamera s ∧
  (let s1 := useEffect s (stopCamera s) in useEffect s1 (stopCamera s1) = s1).
Proof.
  split; [|split].
  - apply stopClassification_idle, stopClassification_ref.
  - destruct (stopCamera_fields s) as (Ha & Hs & Hc & _ & He & Hr & _).
    apply stopCamera_fixed; assumption.
  - intros s1.
    destruct (stopCamera_rendered s) as (Hr & _ & Hs & Ha & Hc & He & _). fold s1 in Hr, Hs, Ha, Hc, He.
    rewrite (stopCamera_fixed s1 Hr Hs Ha Hc He). apply useEffect_same.
Qed.

(** ** The display *)

(** C9.  [getResultDetails] is a total function of the classification
    alone: PLASTIC gives the orange alert, NON_PLASTIC the green one, and
    every other value the grey rendering with the text Scanning; the three
    renderings differ in text, style and icon. *)
Theorem getResultDetails_mapping :
  getResultDetails PLASTIC =
    {| text := "Plastic Waste";
       style := "bg-orange-500/20 border-orange-500 text-orange-300";
       icon := PlasticIcon |} ∧
  getResultDetails NON_PLASTIC =
    {| text := "Non-Plastic Waste";
       style := "bg-green-500/20 border-green-500 text-green-300";
       icon := NonPlasticIcon |} ∧
  (∀ result, result ≠ PLASTIC → result ≠ NON_PLASTIC →
     getResultDetails result =
       {| text := "Scanning...";
          style := "bg-gray-700/50 border-gray-600 text-gray-400";
          icon := UnknownIcon |}) ∧
  (∀ r r', r ≠ r' →
     text (getResultDetails r) ≠ text (getResultDetails r') ∧
     style (getResultDetails r) ≠ style (getResultDetails r') ∧
     icon (getResultDetails r) ≠ icon (getResultDetails r')).
Proof.
  split; [reflexivity|]. split; [reflexivity|]. split.
  - intros [] Hp Hn; try reflexivity; contradiction.
  - intros [] [] Hne; try contradiction; repeat split; discriminate.
Qed.

Lemma getResultDetails_mapping_witness :
  text (getResultDetails UNKNOWN) = "Scanning...".
Proof.
  rewrite (proj1 (proj2 (proj2 getResultDetails_mapping)) UNKNOWN); [reflexivity| |];
    discriminate.
Defined.

(** ** A tick of the polling loop *)

(** What a settled tick does, for a callback that closed over [closure]: the
    stream and the activity flag are as they were and the invariant of the
    timer is kept (an interval is held exactly when the camera is active); a
    rejection sets the error text and forces UNKNOWN; a value becomes the
    classification, and the error slot is cleared when [closure] is truthy
    and left as it is otherwise. *)
Lemma tick_settled_outcome (closure : option string) (r : Completion WasteType) (s : App) :
  Inv s →
  let s' := useEffect s (tick_settled closure r s) in
  stream s' = stream s ∧ isCameraActive s' = isCameraActive s ∧ Inv s' ∧
  match r with
  | inr result =>
      classification s' = result ∧
      (truthy closure = true → classificationError s' = None) ∧
      (truthy closure = false → classificationError s' = classificationError s)
  | inl _ =>
      classificationError s'
        = Some "Classification failed. Please check your network connection." ∧
      classification s' = UNKNOWN
  end.
Proof.
  intros HI s'.
  destruct (useEffect_ui s (tick_settled closure r s)) as (Ha & Hs & Hc & _ & He & _).
  fold s' in Ha, Hs, Hc, He.
  assert (Inv s') as HI'.
  { apply useEffect_Inv.
    - destruct r; cbn [tick_settled]; [|destruct (truthy closure)];
        apply (owned_transfer s); auto using Inv_owned.
    - destruct r; cbn [tick_settled]; [|destruct (truthy closure)];
        intros H1 H2; apply (Inv_transfer s); auto. }
  rewrite Hs, Ha, Hc, He.
  destruct r as [e|result]; cbn [tick_settled]; [repeat split; auto|].
  destruct (truthy closure); repeat split; auto; discriminate.
Qed.

(** C5 fails on the program when two calls overlap.  The camera is active;
    the interval fires twice before either call settles, so both callbacks
    closed over an empty error slot.  The first call is rejected: the error
    text is set.  The second call then returns PLASTIC: the classification
    becomes PLASTIC, but the callback tests the error slot it closed over,
    finds it empty and does not clear the error that is now shown. *)
Lemma overlapping_success_keeps_error :
  isCameraActive <$> run (take 5 overlapping_ticks) mount = Some true ∧
  classificationError <$> run (take 5 overlapping_ticks) mount
    = Some (Some "Classification failed. Please check your network connection.") ∧
  pending <$> run (take 5 overlapping_ticks) mount = Some [(None, inr PLASTIC)] ∧
  isCameraActive <$> run overlapping_ticks mount = Some true ∧
  classification <$> run overlapping_ticks mount = Some PLASTIC ∧
  classificationError <$> run overlapping_ticks mount
    = Some (Some "Classification failed. Please check your network connection.").
Proof. repeat split; vm_compute; reflexivity. Qed.

(** * Further properties of the classification client *)

(** ** Frame capture *)

Lemma append_empty_r (s : string) : s +:+ EmptyString = s.
Proof.
  induction s as [|c s IH]; [reflexivity|].
  change (String c (s +:+ EmptyString) = String c s). rewrite IH. reflexivity.
Qed.

Lemma append_String (s : string) (c : ascii) (t : string) :
  (s +:+ String c EmptyString) +:+ t = s +:+ String c t.
Proof.
  induction s as [|d s IH]; [reflexivity|].
  change (String d ((s +:+ String c EmptyString) +:+ t) = String d (s +:+ String c t)).
  rewrite IH. reflexivity.
Qed.

Lemma split_comma_free (acc s : string) :
  has_comma s = false → split_comma acc s = [acc +:+ s].
Proof.
  revert acc. induction s as [|c rest IH]; intros acc H; cbn [split_comma].
  - rewrite append_empty_r. reflexivity.
  - cbn [has_comma] in H. apply orb_false_iff in H as [Hc Hrest]. rewrite Hc.
    rewrite (IH _ Hrest), append_String. reflexivity.
Qed.

Lemma split_comma_header (acc header rest : string) :
  has_comma header = false →
  split_comma acc (header +:+ "," +:+ rest) = (acc +:+ header) :: split_comma EmptyString rest.
Proof.
  revert acc. induction header as [|c h IH]; intros acc H.
  - change (split_comma acc (String "," rest) = (acc +:+ EmptyString) :: split_comma EmptyString rest).
    rewrite append_empty_r. reflexivity.
  - cbn [has_comma] in H. apply orb_false_iff in H as [Hc Hh].
    change (split_comma acc (String c (h +:+ "," +:+ rest))
            = (acc +:+ String c h) :: split_comma EmptyString rest).
    cbn [split_comma]. rewrite Hc, (IH _ Hh), append_String. reflexivity.
Qed.

(** X1.  [captureFrame] returns what follows the first comma of the data
    URL of the canvas: for a URL made of a header, a comma and a payload
    (neither with a comma in it) it returns the payload, after the one
    capture. *)
Theorem captureFrame_payload (w : World) (v : HTMLVideoElement) (header payload : string) :
  getContext w = true →
  toDataURL w v = header +:+ "," +:+ payload →
  has_comma header = false → has_comma payload = false →
  captureFrame w v = ([CaptureFrame v], inr (Some payload)).
Proof.
  intros Hctx Hurl Hh Hp. unfold captureFrame. rewrite Hctx, Hurl.
  unfold base64_part. rewrite (split_comma_header _ _ _ Hh), (split_comma_free _ _ Hp).
  reflexivity.
Qed.

Lemma captureFrame_payload_witness :
  captureFrame (world_answering "PLASTIC" "0.875" 0.875) sample_video
  = ([CaptureFrame sample_video], inr (Some "/9j/4AAQSkZJRg==")).
Proof.
  apply (captureFrame_payload _ _ "data:image/jpeg;base64" "/9j/4AAQSkZJRg==");
    reflexivity.
Defined.

Lemma classifyWaste_no_context (w : World) (v : HTMLVideoElement) :
  videoWidth v ≠ 0%N → videoHeight v ≠ 0%N → getContext w = false →
  classifyWaste w (Some v)
  = ([CaptureFrame v], inl (OtherError "Error" "Could not get 2D context from canvas.")).
Proof.
  intros Hw Hh Hctx. unfold classifyWaste, captureFrame.
  apply N.eqb_neq in Hw, Hh. rewrite Hw, Hh, Hctx. reflexivity.
Qed.

(** X2.  When the canvas gives no 2D context, a call on a ready surface
    throws the error of [captureFrame] after attempting the capture, and
    sends no request. *)
Theorem classifyWaste_capture_failure (w : World) (v : HTMLVideoElement) :
  videoWidth v ≠ 0%N → videoHeight v ≠ 0%N → getContext w = false →
  classifyWaste w (Some v)
  = ([CaptureFrame v], inl (OtherError "Error" "Could not get 2D context from canvas.")) ∧
  requests (fst (classifyWaste w (Some v))) = 0.
Proof.
  intros Hw Hh Hctx. rewrite (classifyWaste_no_context w v Hw Hh Hctx).
  split; reflexivity.
Qed.

Lemma classifyWaste_capture_failure_witness :
  classifyWaste world_no_context (Some sample_video)
  = ([CaptureFrame sample_video],
     inl (OtherError "Error" "Could not get 2D context from canvas.")).
Proof.
  exact (proj1 (classifyWaste_capture_failure world_no_context sample_video
                  ltac:(discriminate) ltac:(discriminate) eq_refl)).
Defined.

Lemma classifyWaste_not_ready_any (w : World) (v : HTMLVideoElement) :
  videoWidth v = 0%N ∨ videoHeight v = 0%N → classifyWaste w (Some v) = ([], inr UNKNOWN).
Proof.
  intros Hzero. unfold classifyWaste.
  destruct Hzero as [H | H]; rewrite H; cbn [N.eqb orb]; [reflexivity|].
  rewrite orb_true_r. reflexivity.
Qed.

(** X3.  Every request a call sends carries the frame captured in that same
    call: a request appears only for a present element with non-zero width
    and height and a canvas that gave a context, it follows the one capture,
    nothing follows it, and its image is the base64 part of the data URL of
    that element. *)
Theorem classifyWaste_request_provenance
    (w : World) (videoElement : option HTMLVideoElement) (image : option string) :
  RemoteRequest image ∈ fst (classifyWaste w videoElement) →
  ∃ v, videoElement = Some v ∧
       videoWidth v ≠ 0%N ∧ videoHeight v ≠ 0%N ∧ getContext w = true ∧
       image = base64_part (toDataURL w v) ∧
       fst (classifyWaste w videoElement) = [CaptureFrame v; RemoteRequest image].
Proof.
  destruct videoElement as [v|]; [|intros H; inversion H].
  destruct (N.eq_dec (videoWidth v) 0%N) as [Hw|Hw].
  { rewrite (classifyWaste_not_ready_any w v (or_introl Hw)). intros H. inversion H. }
  destruct (N.eq_dec (videoHeight v) 0%N) as [Hh|Hh].
  { rewrite (classifyWaste_not_ready_any w v (or_intror Hh)). intros H. inversion H. }
  destruct (getContext w) eqn:Hctx.
  - rewrite (classifyWaste_ready w v Hw Hh Hctx). cbn [fst]. intros Hin.
    apply elem_of_cons in Hin as [Heq | Hin]; [discriminate Heq|].
    apply list_elem_of_singleton in Hin. injection Hin as ->.
    exists v. repeat split; auto.
  - rewrite (classifyWaste_no_context w v Hw Hh Hctx). cbn [fst]. intros Hin.
    apply list_elem_of_singleton in Hin. discriminate Hin.
Qed.

Lemma classifyWaste_request_provenance_witness :
  RemoteRequest (Some "/9j/4AAQSkZJRg==")
    ∈ fst (classifyWaste (world_answering "PLASTIC" "0.875" 0.875) (Some sample_video)) ∧
  fst (classifyWaste (world_answering "PLASTIC" "0.875" 0.875) (Some sample_video))
  = [CaptureFrame sample_video; RemoteRequest (Some "/9j/4AAQSkZJRg==")].
Proof.
  assert (RemoteRequest (Some "/9j/4AAQSkZJRg==")
            ∈ fst (classifyWaste (world_answering "PLASTIC" "0.875" 0.875) (Some sample_video)))
    as Hin by (apply list_elem_of_In; right; left; reflexivity).
  split; [exact Hin|].
  destruct (classifyWaste_request_provenance _ _ _ Hin) as (v & Hv & _ & _ & _ & _ & Hfst).
  injection Hv as <-. exact Hfst.
Defined.

(** ** Answers that do not have the expected shape *)

Lemma classifyWaste_parsed
    (w : World) (v : HTMLVideoElement) (tx : option string) (resultJson : JSValue) :
  videoWidth v ≠ 0%N → videoHeight v ≠ 0%N → getContext w = true →
  generateContent w (base64_part (toDataURL w v)) = inr tx →
  parse_text w tx = inr resultJson →
  snd (classifyWaste w (Some v)) =
    bindC (RequireObjectCoercible resultJson) (fun obj =>
    bindC (js_lt w (getProp obj "confidence") 0.75%float) (fun low =>
      inr (if low then UNKNOWN
           else if strict_eq_string (getProp obj "classification") "PLASTIC" then PLASTIC
           else if strict_eq_string (getProp obj "classification") "NON_PLASTIC" then NON_PLASTIC
           else UNKNOWN))).
Proof.
  intros Hwidth Hheight Hcontext Hreply Hparse.
  rewrite (classifyWaste_ready w v Hwidth Hheight Hcontext). cbn [snd].
  rewrite Hreply. cbn [bindC]. rewrite Hparse. reflexivity.
Qed.

(** X4.  The threshold is applied to whatever the field [confidence]
    converts to.  When the parsed object has no [confidence], the comparison
    is false and the label is passed as if the confidence were high; a
    [confidence] of [null] or [false] counts as 0 and gives UNKNOWN; a
    [confidence] of [true] counts as 1 and passes the label. *)
Theorem classifyWaste_confidence_edge
    (w : World) (v : HTMLVideoElement) (tx : option string)
    (props : list (string * JSValue)) (t : WasteType) :
  videoWidth v ≠ 0%N → videoHeight v ≠ 0%N → getContext w = true →
  generateContent w (base64_part (toDataURL w v)) = inr tx →
  parse_text w tx = inr (JSObject props) →
  assoc "classification" props = Some (JSString (WasteType_value t)) →
  (assoc "confidence" props = None → snd (classifyWaste w (Some v)) = inr t) ∧
  (assoc "confidence" props = Some JSNull → snd (classifyWaste w (Some v)) = inr UNKNOWN) ∧
  (assoc "confidence" props = Some (JSBool false) →
     snd (classifyWaste w (Some v)) = inr UNKNOWN) ∧
  (assoc "confidence" props = Some (JSBool true) → snd (classifyWaste w (Some v)) = inr t).
Proof.
  intros Hwidth Hheight Hcontext Hreply Hparse Hlabel.
  rewrite (classifyWaste_parsed w v tx _ Hwidth Hheight Hcontext Hreply Hparse).
  cbn [RequireObjectCoercible bindC getProp]. rewrite Hlabel. cbn [default from_option id].
  repeat split; intros ->; cbn [default from_option id]; destruct t; reflexivity.
Qed.

(** X5.  A parsed answer that is not an object and not [null] (a boolean, a
    number, a string, an array) has neither field: the call returns UNKNOWN
    and throws nothing. *)
Theorem classifyWaste_not_an_object
    (w : World) (v : HTMLVideoElement) (tx : option string) (resultJson : JSValue) :
  videoWidth v ≠ 0%N → videoHeight v ≠ 0%N → getContext w = true →
  generateContent w (base64_part (toDataURL w v)) = inr tx →
  parse_text w tx = inr resultJson →
  (∀ props, resultJson ≠ JSObject props) → resultJson ≠ JSNull → resultJson ≠ JSUndefined →
  snd (classifyWaste w (Some v)) = inr UNKNOWN.
Proof.
  intros Hwidth Hheight Hcontext Hreply Hparse Hobj Hnull Hundef.
  rewrite (classifyWaste_parsed w v tx _ Hwidth Hheight Hcontext Hreply Hparse).
  clear Hparse.
  destruct resultJson as [| |b|x|s|items|props]; try reflexivity;
    [congruence | congruence | exfalso; exact (Hobj props eq_refl)].
Qed.

(** X6.  The label is compared with the two category names by strict
    equality: a label that is not a string (a missing one, [null], a number,
    a nested value) gives UNKNOWN at any confidence, whenever the comparison
    of the confidence does not throw. *)
Theorem classifyWaste_label_not_a_string
    (w : World) (v : HTMLVideoElement) (tx : option string)
    (props : list (string * JSValue)) (low : bool) :
  videoWidth v ≠ 0%N → videoHeight v ≠ 0%N → getContext w = true →
  generateContent w (base64_part (toDataURL w v)) = inr tx →
  parse_text w tx = inr (JSObject props) →
  (∀ s, getProp (JSObject props) "classification" ≠ JSString s) →
  js_lt w (getProp (JSObject props) "confidence") 0.75%float = inr low →
  snd (classifyWaste w (Some v)) = inr UNKNOWN.
Proof.
  intros Hwidth Hheight Hcontext Hreply Hparse Hlabel Hlow.
  rewrite (classifyWaste_parsed w v tx _ Hwidth Hheight Hcontext Hreply Hparse).
  cbn [RequireObjectCoercible bindC]. rewrite Hlow. cbn [bindC].
  destruct low; [reflexivity|].
  destruct (getProp (JSObject props) "classification") as [| |b|x|s|items|props'];
    try reflexivity.
  exfalso. exact (Hlabel s eq_refl).
Qed.

Lemma classifyWaste_confidence_edge_witness :
  snd (classifyWaste world_missing_confidence (Some sample_video)) = inr PLASTIC ∧
  snd (classifyWaste
         (world_parsed "(an answer with a null confidence)"
            (JSObject [("classification", JSString "PLASTIC"); ("confidence", JSNull)]))
         (Some sample_video)) = inr UNKNOWN.
Proof.
  split.
  - apply (proj1 (classifyWaste_confidence_edge world_missing_confidence sample_video
                    (Some text_missing_confidence) [("classification", JSString "PLASTIC")]
                    PLASTIC
                    ltac:(discriminate) ltac:(discriminate) eq_refl eq_refl eq_refl eq_refl)).
    reflexivity.
  - apply (proj1 (proj2 (classifyWaste_confidence_edge
                    (world_parsed "(an answer with a null confidence)"
                       (JSObject [("classification", JSString "PLASTIC"); ("confidence", JSNull)]))
                    sample_video _ _ PLASTIC
                    ltac:(discriminate) ltac:(discriminate) eq_refl eq_refl eq_refl eq_refl))).
    reflexivity.
Defined.

Lemma classifyWaste_not_an_object_witness :
  snd (classifyWaste (world_parsed "0.875" (JSNumber 0.875)) (Some sample_video)) = inr UNKNOWN.
Proof.
  apply (classifyWaste_not_an_object (world_parsed "0.875" (JSNumber 0.875)) sample_video
           (Some "0.875") (JSNumber 0.875)
           ltac:(discriminate) ltac:(discriminate) eq_refl eq_refl eq_refl);
    intros; discriminate.
Defined.

Lemma classifyWaste_label_not_a_string_witness :
  snd (classifyWaste
         (world_parsed "(an answer with a numeric label)"
            (JSObject [("classification", JSNumber 1); ("confidence", JSNumber 0.875)]))
         (Some sample_video)) = inr UNKNOWN.
Proof.
  apply (classifyWaste_label_not_a_string
           (world_parsed "(an answer with a numeric label)"
              (JSObject [("classification", JSNumber 1); ("confidence", JSNumber 0.875)]))
           sample_video _ _ false
           ltac:(discriminate) ltac:(discriminate) eq_refl eq_refl eq_refl);
    [intros s; discriminate | reflexivity].
Defined.

(** * Further properties of the session controller *)

(** ** The video element is there whenever the timer is *)

Lemma step_active_stream (e : Event) (s s' : App) :
  (isCameraActive s = true → is_Some (stream s)) →
  step e s = Some s' →
  isCameraActive s' = true → is_Some (stream s').
Proof.
  intros Hs Hstep. destruct e as [|r|id w v|k]; cbn [step] in Hstep.
  - injection Hstep as <-.
    destruct (useEffect_ui s (if isCameraActive s then stopCamera s else startCamera s))
      as (Ha & Hst & _).
    rewrite Ha, Hst. destruct (isCameraActive s) eqn:Hact.
    + destruct (stopCamera_fields s) as (Ha' & _). congruence.
    + cbn. congruence.
  - destruct (acquiring s) as [|n]; [discriminate|]. injection Hstep as <-.
    destruct (useEffect_ui s (startCamera_settled r (set_acquiring n s))) as (Ha & Hst & _).
    rewrite Ha, Hst. destruct r as [err|m]; cbn; [discriminate | eauto].
  - destruct (timers s !! id); [|discriminate]. injection Hstep as <-.
    unfold tick. destruct (videoRef s v); [|exact Hs]. exact Hs.
  - destruct (pending s !! k) as [[closure r]|]; [|discriminate]. injection Hstep as <-.
    destruct (useEffect_ui s (tick_settled closure r (set_pending (delete k (pending s)) s)))
      as (Ha & Hst & _).
    rewrite Ha, Hst.
    destruct r; cbn [tick_settled]; [|destruct (truthy closure)]; exact Hs.
Qed.

Lemma reachable_active_stream (s : App) :
  reachable s → isCameraActive s = true → is_Some (stream s).
Proof.
  intros [events Hrun]. revert Hrun.
  assert (isCameraActive mount = true → is_Some (stream mount)) as H0 by discriminate.
  revert H0. generalize mount. induction events as [|e rest IH]; intros s0 H0 Hrun;
    cbn [run] in Hrun.
  - injection Hrun as <-. exact H0.
  - destruct (step e s0) as [s1|] eqn:Hstep; [|discriminate].
    exact (IH s1 (step_active_stream e s0 s1 H0 Hstep) Hrun).
Qed.

(** X7.  In every reachable state an active camera holds a stream, so the
    video element is mounted whenever an interval exists: every tick that
    can fire starts exactly one call of [classifyWaste] on that element and
    changes nothing else. *)
Theorem tick_starts_one_call
    (s : App) (id : positive) (closure : option string) (w : World) (v : HTMLVideoElement) :
  reachable s → timers s !! id = Some closure →
  is_Some (stream s) ∧
  closure = classificationError s ∧
  step (Tick id w v) s
  = Some (set_pending (pending s ++ [(closure, snd (classifyWaste w (Some v)))]) s).
Proof.
  intros Hreach Hid. pose proof (reachable_Inv s Hreach) as HI. unfold Inv in HI.
  destruct (classificationIntervalRef s) as [id'|]; destruct HI as [Hact Ht];
    rewrite Ht in Hid; [|rewrite lookup_empty in Hid; discriminate].
  apply lookup_singleton_Some in Hid as [<- <-].
  pose proof (reachable_active_stream s Hreach Hact) as [m Hm].
  split; [eauto|]. split; [reflexivity|].
  cbn [step]. rewrite Ht, lookup_singleton_eq. unfold tick, videoRef. rewrite Hm, Hact.
  reflexivity.
Qed.

Lemma tick_starts_one_call_witness :
  reachable active_state ∧
  step (Tick 1 world_offline sample_video) active_state
  = Some (set_pending [(None, inl (OtherError "TypeError" "Failed to fetch"))] active_state).
Proof.
  split; [exact active_state_reachable|].
  exact (proj2 (proj2 (tick_starts_one_call active_state 1 None world_offline sample_video
                         active_state_reachable eq_refl))).
Defined.

(** ** Streams are released *)

Lemma useEffect_stream_cleanup (prev s : App) (m : MediaStream) (t : nat) :
  stream prev = Some m → stream s ≠ Some m → t ∈ getTracks m →
  t ∈ ended (useEffect prev s).
Proof.
  intros Hprev Hne Hin. unfold useEffect.
  rewrite (bool_decide_eq_false_2 (stream prev = stream s)) by congruence. cbn [negb].
  assert (∀ x, t ∈ ended (stop_tracks (stream prev) x)) as Hstop.
  { intros x. exact (proj2 (stop_tracks_ended (stream prev) x) m t Hprev Hin). }
  destruct (negb _ || negb _); [|apply Hstop].
  destruct (isCameraActive _);
    rewrite ?startClassification_ended, ?stopClassification_ended; apply Hstop.
Qed.

Lemma useEffect_same_stream (prev s : App) :
  stream prev = stream s → ended (useEffect prev s) = ended s.
Proof.
  intros Hsame. unfold useEffect.
  rewrite (bool_decide_eq_true_2 (stream prev = stream s)) by exact Hsame. cbn [negb].
  destruct (negb _ || negb _); [|reflexivity].
  destruct (isCameraActive _);
    rewrite ?startClassification_ended, !stopClassification_ended; reflexivity.
Qed.

(** X8.  The second effect releases a stream that a render drops: when the
    stream of the previous render is not the stream of this one (it was
    replaced, or cleared), every track of the previous stream has been
    stopped once the effects have run; when the stream is the same, the
    effects stop no track. *)
Theorem stream_effect_releases (prev s : App) :
  (∀ m t, stream prev = Some m → stream s ≠ Some m → t ∈ getTracks m →
          t ∈ ended (useEffect prev s)) ∧
  (stream prev = stream s → ended (useEffect prev s) = ended s).
Proof.
  split.
  - intros m t. apply useEffect_stream_cleanup.
  - apply useEffect_same_stream.
Qed.

Lemma stream_effect_releases_witness :
  70 ∈ ended (useEffect active_state
                (startCamera_settled (inr {| stream_id := 8; getTracks := [80; 81] |})
                   active_state)).
Proof.
  apply (proj1 (stream_effect_releases active_state _) sample_stream 70);
    [reflexivity | discriminate | apply list_elem_of_singleton; reflexivity].
Defined.

Lemma useEffect_accounted (prev h : App) (t : nat) :
  ended prev ⊆ ended h → accounted prev t → accounted (useEffect prev h) t.
Proof.
  intros Hmono [Hend | (m & Hm & Hin)].
  - left. apply (useEffect_ended prev h), Hmono, Hend.
  - destruct (decide (stream h = Some m)) as [Heq | Hne].
    + right. exists m. split; [|exact Hin].
      destruct (useEffect_ui prev h) as (_ & Hst & _). congruence.
    + left. exact (useEffect_stream_cleanup prev h m t Hm Hne Hin).
Qed.

Lemma stopCamera_ended (s : App) : ended s ⊆ ended (stopCamera s).
Proof.
  destruct (stopCamera_fields s) as (_ & _ & _ & _ & _ & _ & _ & Hen & _). rewrite Hen.
  etransitivity; [|apply stop_tracks_ended]. rewrite stopClassification_ended. reflexivity.
Qed.

Lemma step_accounted (e : Event) (s s' : App) (t : nat) :
  step e s = Some s' → accounted s t → accounted s' t.
Proof.
  intros Hstep Hacc. destruct e as [|r|id w v|k]; cbn [step] in Hstep.
  - injection Hstep as <-. apply useEffect_accounted; [|exact Hacc].
    destruct (isCameraActive s); [apply stopCamera_ended | reflexivity].
  - destruct (acquiring s) as [|n]; [discriminate|]. injection Hstep as <-.
    apply useEffect_accounted; [|exact Hacc]. destruct r; reflexivity.
  - destruct (timers s !! id); [|discriminate]. injection Hstep as <-.
    unfold tick. destruct (videoRef s v); exact Hacc.
  - destruct (pending s !! k) as [[closure r]|]; [|discriminate]. injection Hstep as <-.
    apply useEffect_accounted; [|exact Hacc].
    destruct r; cbn [tick_settled]; [|destruct (truthy closure)]; reflexivity.
Qed.

Lemma step_granted (m : MediaStream) (s s' : App) (t : nat) :
  step (Acquired (inr m)) s = Some s' → t ∈ getTracks m → accounted s' t.
Proof.
  cbn [step]. destruct (acquiring s) as [|n]; [discriminate|]. intros [= <-] Hin.
  right. exists m. split; [|exact Hin].
  destruct (useEffect_ui s (startCamera_settled (inr m) (set_acquiring n s))) as (_ & Hst & _).
  exact Hst.
Qed.

Lemma run_accounted (events : list Event) (s0 s : App) (t : nat) :
  run events s0 = Some s →
  (accounted s0 t ∨ ∃ m, m ∈ granted events ∧ t ∈ getTracks m) →
  accounted s t.
Proof.
  revert s0. induction events as [|e rest IH]; intros s0 Hrun Hsrc; cbn [run] in Hrun.
  - injection Hrun as <-. destruct Hsrc as [H | (m & Hm & _)]; [exact H | inversion Hm].
  - destruct (step e s0) as [s1|] eqn:Hstep; [|discriminate].
    apply (IH s1 Hrun). destruct Hsrc as [H | (m & Hm & Hin)].
    + left. exact (step_accounted e s0 s1 t Hstep H).
    + destruct e as [|[err|m']|id w v|k]; cbn [granted] in Hm; eauto.
      apply elem_of_cons in Hm as [-> | Hm]; [|eauto].
      left. exact (step_granted m' s0 s1 t Hstep Hin).
Qed.

(** X9.  No track is left behind.  After any sequence of events, every track
    of every stream that [getUserMedia] granted has been stopped, unless it
    belongs to the stream the component still holds. *)
Theorem granted_tracks_accounted
    (events : list Event) (s : App) (m : MediaStream) (t : nat) :
  run events mount = Some s → m ∈ granted events → t ∈ getTracks m →
  t ∈ ended s ∨ ∃ held, stream s = Some held ∧ t ∈ getTracks held.
Proof.
  intros Hrun Hm Hin. apply (run_accounted events mount s t Hrun). right. eauto.
Qed.

Lemma granted_tracks_accounted_witness :
  ∃ s, run two_cycles mount = Some s ∧
       (80 ∈ ended s ∨ ∃ held, stream s = Some held ∧ 80 ∈ getTracks held).
Proof.
  exists (default mount (run two_cycles mount)).
  assert (run two_cycles mount = Some (default mount (run two_cycles mount))) as Hrun
    by (vm_compute; reflexivity).
  split; [exact Hrun|].
  apply (granted_tracks_accounted two_cycles _ {| stream_id := 8; getTracks := [80; 81] |} 80 Hrun).
  - apply list_elem_of_In. right. left. reflexivity.
  - apply list_elem_of_In. left. reflexivity.
Defined.

(** ** Unmounting *)

(** X10.  When the component is unmounted in a reachable state, the cleanups
    leave no interval and stop every track of the stream that is held; the
    interval is cleared before the tracks are stopped. *)
Theorem unmount_releases (s : App) :
  reachable s →
  classificationIntervalRef (unmount s) = None ∧
  timers (unmount s) = ∅ ∧
  (∀ m t, stream s = Some m → t ∈ getTracks m → t ∈ ended (unmount s)) ∧
  log (unmount s) =
    log s ++ match classificationIntervalRef s with
             | Some id => [ClearInterval id]
             | None => []
             end ++ match stream s with
                    | Some m => TrackStop <$> getTracks m
                    | None => []
                    end.
Proof.
  intros Hreach. pose proof (Inv_owned s (reachable_Inv s Hreach)) as Hown.
  unfold unmount.
  destruct (stop_tracks_fields (stream s) (stopClassification s))
    as (_ & _ & _ & _ & _ & Hr & Ht & _).
  rewrite Hr, Ht, stopClassification_ref, (stopClassification_timers s Hown).
  split; [reflexivity|]. split; [reflexivity|]. split.
  - intros m t Hm Hin.
    exact (proj2 (stop_tracks_ended (stream s) (stopClassification s)) m t Hm Hin).
  - rewrite stop_tracks_log, stopClassification_log, <- app_assoc. reflexivity.
Qed.

Lemma unmount_releases_witness :
  reachable active_state ∧
  timers (unmount active_state) = ∅ ∧
  log (unmount active_state)
  = [GetUserMedia; SetInterval 1; ClearInterval 1; TrackStop 70].
Proof.
  split; [exact active_state_reachable|].
  destruct (unmount_releases active_state active_state_reachable) as (_ & Ht & _ & Hl).
  split; [exact Ht | exact Hl].
Defined.

(** ** When the interval is restarted *)

Lemma useEffect_unchanged (prev h : App) :
  isCameraActive h = isCameraActive prev →
  classificationError h = classificationError prev →
  stream h = stream prev →
  useEffect prev h = h.
Proof.
  intros Ha He Hs. unfold useEffect.
  rewrite !bool_decide_eq_true_2 by congruence. reflexivity.
Qed.

Lemma useEffect_restart (prev h : App) (id : positive) (old : option string) :
  isCameraActive h = true →
  stream h = stream prev →
  classificationError h ≠ classificationError prev →
  classificationIntervalRef h = Some id →
  timers h = {[id := old]} →
  classificationIntervalRef (useEffect prev h) = Some (next_timer h) ∧
  timers (useEffect prev h) = {[next_timer h := classificationError h]} ∧
  log (useEffect prev h) = log h ++ [ClearInterval id; SetInterval (next_timer h)].
Proof.
  intros Ha Hs He Hr Ht. unfold useEffect.
  rewrite (bool_decide_eq_false_2 (classificationError prev = classificationError h))
    by congruence.
  rewrite (bool_decide_eq_true_2 (stream prev = stream h)) by congruence.
  rewrite orb_true_r. cbn [negb].
  assert (stopClassification h = clearInterval id h) as ->
    by (unfold stopClassification; rewrite Hr; reflexivity).
  cbn [clearInterval isCameraActive]. rewrite Ha.
  unfold startClassification.
  rewrite (stopClassification_idle (clearInterval id h)) by reflexivity.
  cbn [clearInterval setInterval classificationIntervalRef timers log next_timer
       classificationError].
  rewrite Ht, delete_singleton_eq, <- app_assoc. repeat split.
Qed.

(** X11.  A settled tick restarts the interval exactly when it changes the
    error slot.  While the camera is active: if the slot is the same after
    the tick (a failure while the text is already shown, a success with
    nothing to clear), the effects do nothing and the interval keeps its
    handle; if the slot changed, the interval is cleared and a new one is
    set, whose callback closes over the new slot. *)
Theorem tick_restarts_timer
    (s : App) (closure : option string) (r : Completion WasteType) (id : positive) :
  Inv s → isCameraActive s = true → classificationIntervalRef s = Some id →
  let h := tick_settled closure r s in
  let s' := useEffect s h in
  (classificationError h = classificationError s →
     s' = h ∧ classificationIntervalRef s' = Some id ∧ log s' = log s) ∧
  (classificationError h ≠ classificationError s →
     classificationIntervalRef s' = Some (next_timer s) ∧
     timers s' = {[next_timer s := classificationError h]} ∧
     log s' = log s ++ [ClearInterval id; SetInterval (next_timer s)]).
Proof.
  intros HI Hact Href h s'.
  assert (isCameraActive h = isCameraActive s ∧ stream h = stream s ∧
          classificationIntervalRef h = classificationIntervalRef s ∧
          timers h = timers s ∧ next_timer h = next_timer s ∧ log h = log s)
    as (Ha & Hs & Hr & Ht & Hn & Hl).
  { subst h. destruct r; cbn [tick_settled]; [|destruct (truthy closure)]; repeat split. }
  unfold Inv in HI. rewrite Href in HI. destruct HI as [_ Htimers].
  split.
  - intros He. subst s'. rewrite (useEffect_unchanged s h Ha He Hs).
    split; [reflexivity|]. split; congruence.
  - intros He.
    destruct (useEffect_restart s h id (classificationError s)) as (H1 & H2 & H3);
      try congruence.
    fold s' in H1, H2, H3. rewrite Hn in H1, H2, H3. rewrite Hl in H3. auto.
Qed.

Lemma tick_restarts_timer_witness :
  Inv active_state ∧
  classificationIntervalRef
    (useEffect active_state
       (tick_settled None (inl (OtherError "TypeError" "Failed to fetch")) active_state))
  = Some 2%positive ∧
  useEffect active_state (tick_settled None (inr PLASTIC) active_state)
  = tick_settled None (inr PLASTIC) active_state.
Proof.
  pose proof (reachable_Inv active_state active_state_reachable) as HI.
  split; [exact HI|]. split.
  - exact (proj1 (proj2 (tick_restarts_timer active_state None
                           (inl (OtherError "TypeError" "Failed to fetch")) 1
                           HI eq_refl eq_refl) ltac:(discriminate))).
  - exact (proj1 (proj1 (tick_restarts_timer active_state None (inr PLASTIC) 1
                           HI eq_refl eq_refl) eq_refl)).
Defined.

(** ** The camera error *)

(** X12.  The camera error is set only by a failed acquisition and cleared
    only by the next start: a click that starts the camera clears it, a
    rejected [getUserMedia] sets it to the text of the rejection, and every
    other event (a click that stops the camera, a granted camera, a tick, a
    settled call) leaves it as it was. *)
Theorem camera_error_persists (e : Event) (s s' : App) :
  step e s = Some s' →
  match e with
  | Click => if isCameraActive s then error s' = error s else error s' = None
  | Acquired (inl err) => error s' = Some (message err)
  | Acquired (inr _) | Tick _ _ _ | Settled _ => error s' = error s
  end.
Proof.
  intros Hstep. destruct e as [|r|id w v|k]; cbn [step] in Hstep.
  - injection Hstep as <-.
    destruct (useEffect_ui s (if isCameraActive s then stopCamera s else startCamera s))
      as (_ & _ & _ & He & _).
    rewrite He. destruct (isCameraActive s); [|reflexivity].
    destruct (stopCamera_fields s) as (_ & _ & _ & He' & _). exact He'.
  - destruct (acquiring s) as [|n]; [discriminate|]. injection Hstep as <-.
    destruct (useEffect_ui s (startCamera_settled r (set_acquiring n s)))
      as (_ & _ & _ & He & _).
    rewrite He. destruct r; reflexivity.
  - destruct (timers s !! id); [|discriminate]. injection Hstep as <-.
    unfold tick. destruct (videoRef s v); reflexivity.
  - destruct (pending s !! k) as [[closure r]|]; [|discriminate]. injection Hstep as <-.
    destruct (useEffect_ui s (tick_settled closure r (set_pending (delete k (pending s)) s)))
      as (_ & _ & _ & He & _).
    rewrite He. destruct r; cbn [tick_settled]; [|destruct (truthy closure)]; reflexivity.
Qed.

Lemma camera_error_persists_witness :
  ∃ s', step (Tick 1 world_offline sample_video) active_state = Some s' ∧
        error s' = error active_state.
Proof.
  eexists. split; [reflexivity|].
  exact (camera_error_persists (Tick 1 world_offline sample_video) active_state _ eq_refl).
Defined.

(** ** What the user sees *)

(** X13.  In every reachable state the three signs of an active session
    agree: either the camera is active, the preview plays the stream that is
    held, the button says Stop Camera and one interval exists; or the camera
    is not active, the placeholder is shown, the button says Start Camera and
    no interval exists. *)
Theorem view_matches_session (s : App) :
  reachable s →
  (isCameraActive s = true ∧
   (∃ m, stream s = Some m ∧ preview (render s) = Video m) ∧
   buttonLabel (render s) = "Stop Camera" ∧
   ∃ id, timers s = {[id := classificationError s]}) ∨
  (isCameraActive s = false ∧
   preview (render s) = CameraOff ∧
   buttonLabel (render s) = "Start Camera" ∧
   timers s = ∅).
Proof.
  intros Hreach. pose proof (reachable_Inv s Hreach) as HI.
  destruct (isCameraActive s) eqn:Hact.
  - left. destruct (reachable_active_stream s Hreach Hact) as [m Hm].
    destruct (Inv_active s HI Hact) as (id & _ & Ht).
    split; [reflexivity|]. split; [|split].
    + exists m. split; [exact Hm|]. unfold render. cbn [preview]. rewrite Hm, Hact. reflexivity.
    + unfold render. cbn [buttonLabel]. rewrite Hact. reflexivity.
    + eauto.
  - right. destruct (Inv_idle s HI Hact) as [_ Ht].
    split; [reflexivity|]. split; [|split].
    + unfold render. cbn [preview]. rewrite Hact. destruct (stream s); reflexivity.
    + unfold render. cbn [buttonLabel]. rewrite Hact. reflexivity.
    + exact Ht.
Qed.

Lemma view_matches_session_witness :
  reachable active_state ∧ preview (render active_state) = Video sample_stream.
Proof.
  split; [exact active_state_reachable|].
  destruct (view_matches_session active_state active_state_reachable)
    as [(_ & (m & Hm & Hp) & _) | (Hact & _)]; [|discriminate Hact].
  injection Hm as <-. exact Hp.
Defined.

(** X14.  After a failed tick the display shows the neutral Scanning
    rendering together with the text of the failure, whatever was shown
    before; the preview and the button are as they were. *)
Theorem failed_tick_display (s : App) (closure : option string) (err : JSError) :
  let s' := useEffect s (tick_settled closure (inl err) s) in
  resultBanner (render s') = getResultDetails UNKNOWN ∧
  text (resultBanner (render s')) = "Scanning..." ∧
  classificationErrorBanner (render s')
  = Some "Classification failed. Please check your network connection." ∧
  preview (render s') = preview (render s) ∧
  buttonLabel (render s') = buttonLabel (render s) ∧
  cameraErrorBanner (render s') = cameraErrorBanner (render s).
Proof.
  intros s'.
  destruct (useEffect_ui s (tick_settled closure (inl err) s)) as (Ha & Hs & Hc & He & Hce & _).
  fold s' in Ha, Hs, Hc, He, Hce. cbn in Ha, Hs, Hc, He, Hce.
  unfold render. cbn [resultBanner classificationErrorBanner preview buttonLabel
                      cameraErrorBanner].
  rewrite Ha, Hs, Hc, He, Hce. repeat split.
Qed.

(** ** A call that settles after the camera was stopped *)

(** X15.  Stopping the camera cancels no call that is awaited, and a call
    that settles afterwards is still applied: its result becomes the
    classification and is displayed although the camera is off; no interval
    is started by it. *)
Theorem late_result_is_applied
    (s : App) (k : nat) (closure : option string) (result : WasteType) :
  pending (useEffect s (stopCamera s)) = pending s ∧
  (Inv s → isCameraActive s = false → pending s !! k = Some (closure, inr result) →
   ∃ s', step (Settled k) s = Some s' ∧
         classification s' = result ∧
         resultBanner (render s') = getResultDetails result ∧
         preview (render s') = CameraOff ∧
         isCameraActive s' = false ∧
         timers s' = ∅ ∧
         pending s' = delete k (pending s)).
Proof.
  split.
  - destruct (useEffect_ui s (stopCamera s)) as (_ & _ & _ & _ & _ & Hp & _).
    rewrite Hp. unfold stopCamera. cbn [setClassificationError setClassification
      setIsCameraActive setStream pending].
    destruct (stop_tracks_fields (stream s) (stopClassification s))
      as (_ & _ & _ & _ & _ & _ & _ & _ & Hp' & _).
    rewrite Hp'. apply stopClassification_ui.
  - intros HI Hact Hk. cbn [step]. rewrite Hk. eexists. split; [reflexivity|].
    set (s0 := set_pending (delete k (pending s)) s).
    assert (Inv s0) as HI0 by (apply (Inv_transfer s); auto).
    destruct (tick_settled_outcome closure (inr result) s0 HI0) as (_ & Ha & HI' & Hc & _).
    destruct (useEffect_ui s0 (tick_settled closure (inr result) s0))
      as (_ & Hs & _ & _ & _ & Hp & _).
    assert (useEffect s (tick_settled closure (inr result) s0)
            = useEffect s0 (tick_settled closure (inr result) s0)) as -> by reflexivity.
    change (isCameraActive s0) with (isCameraActive s) in Ha. rewrite Hact in Ha.
    destruct (Inv_idle _ HI' Ha) as [_ Ht].
    split; [exact Hc|]. split; [unfold render; cbn [resultBanner]; rewrite Hc; reflexivity|].
    split; [unfold render; cbn [preview]; rewrite Ha;
            destruct (stream _); reflexivity|].
    split; [exact Ha|]. split; [exact Ht|].
    rewrite Hp. destruct (truthy closure) eqn:Htr; cbn [tick_settled]; rewrite Htr; reflexivity.
Qed.

Lemma late_result_is_applied_witness :
  ∃ s s', run stop_while_pending mount = Some s ∧
          isCameraActive s = false ∧
          step (Settled 0) s = Some s' ∧
          classification s' = PLASTIC ∧
          preview (render s') = CameraOff.
Proof.
  set (s := default mount (run stop_while_pending mount)).
  assert (run stop_while_pending mount = Some s) as Hrun by (vm_compute; reflexivity).
  assert (Inv s) as HI by (apply reachable_Inv; exists stop_while_pending; exact Hrun).
  assert (isCameraActive s = false) as Hact by (vm_compute; reflexivity).
  assert (pending s !! 0%nat = Some (None, inr PLASTIC)) as Hk by (vm_compute; reflexivity).
  destruct (proj2 (late_result_is_applied s 0 None PLASTIC) HI Hact Hk)
    as (s' & Hstep & Hc & _ & Hp & _).
  exists s, s'. auto.
Defined.

(** ** A whole session *)

(** X16.  Start, a granted camera and stop, from a state in which the
    camera is not active, lead back to the idle display: all three events
    can happen, the camera is active in between, and afterwards the view is
    the idle one (no banner, placeholder, Scanning, Start Camera), no
    interval is left, every track of the granted stream has been stopped,
    and the calls and requests that were awaited before are still awaited. *)
Theorem start_stop_cycle (s : App) (m : MediaStream) :
  Inv s → isCameraActive s = false →
  ∃ s1 s2 s3,
    step Click s = Some s1 ∧
    step (Acquired (inr m)) s1 = Some s2 ∧
    step Click s2 = Some s3 ∧
    isCameraActive s2 = true ∧ stream s2 = Some m ∧
    render s3 = idle_view ∧
    classificationIntervalRef s3 = None ∧ timers s3 = ∅ ∧
    (∀ t, t ∈ getTracks m → t ∈ ended s3) ∧
    pending s3 = pending s ∧ acquiring s3 = acquiring s.
Proof.
  intros HI Hact.
  set (s1 := useEffect s (startCamera s)).
  assert (step Click s = Some s1) as H1 by (cbn [step]; rewrite Hact; reflexivity).
  destruct (useEffect_ui s (startCamera s)) as (Ha1 & Hs1 & Hc1 & He1 & Hce1 & Hp1 & Hq1).
  fold s1 in Ha1, Hs1, Hc1, He1, Hce1, Hp1, Hq1. cbn in Ha1, Hs1, Hc1, He1, Hce1, Hp1, Hq1.
  set (s2 := useEffect s1 (startCamera_settled (inr m) (set_acquiring (acquiring s) s1))).
  assert (step (Acquired (inr m)) s1 = Some s2) as H2 by (cbn [step]; rewrite Hq1; reflexivity).
  destruct (useEffect_ui s1 (startCamera_settled (inr m) (set_acquiring (acquiring s) s1)))
    as (Ha2 & Hs2 & Hc2 & He2 & Hce2 & Hp2 & Hq2).
  fold s2 in Ha2, Hs2, Hc2, He2, Hce2, Hp2, Hq2. cbn in Ha2, Hs2, Hc2, He2, Hce2, Hp2, Hq2.
  set (s3 := useEffect s2 (stopCamera s2)).
  assert (step Click s2 = Some s3) as H3 by (cbn [step]; rewrite Ha2; reflexivity).
  pose proof (step_Inv _ _ _ (step_Inv _ _ _ HI H1) H2) as HI2.
  destruct (stopCamera_rendered s2) as (Hr3 & Ht3 & Hs3 & Ha3 & Hc3 & Hce3 & Hsub).
  fold s3 in Hr3, Ht3, Hs3, Ha3, Hc3, Hce3, Hsub.
  destruct (useEffect_ui s2 (stopCamera s2)) as (_ & _ & _ & He3 & _ & Hp3 & Hq3).
  fold s3 in He3, Hp3, Hq3.
  destruct (stopCamera_fields s2) as (_ & _ & _ & He3' & _ & _ & _ & Hen & _).
  assert (pending (stopCamera s2) = pending s2 ∧ acquiring (stopCamera s2) = acquiring s2)
    as [Hp3' Hq3'].
  { unfold stopCamera. cbn.
    destruct (stop_tracks_fields (stream s2) (stopClassification s2))
      as (_ & _ & _ & _ & _ & _ & _ & _ & Hp & Hq).
    destruct (stopClassification_ui s2) as (_ & _ & _ & _ & _ & Hp' & Hq').
    split; congruence. }
  exists s1, s2, s3.
  split; [exact H1|]. split; [exact H2|]. split; [exact H3|].
  split; [exact Ha2|]. split; [exact Hs2|]. split.
  { unfold render, idle_view. rewrite He3, He3', He2, He1, Hs3, Ha3, Hc3, Hce3. reflexivity. }
  split; [exact Hr3|]. split.
  { rewrite Ht3. apply stopClassification_timers, Inv_owned, HI2. }
  split.
  { intros t Hin. apply Hsub. rewrite Hen.
    exact (proj2 (stop_tracks_ended (stream s2) (stopClassification s2)) m t Hs2 Hin). }
  split; congruence.
Qed.

Lemma start_stop_cycle_witness :
  Inv mount ∧
  ∃ s3, run [Click; Acquired (inr sample_stream); Click] mount = Some s3 ∧
        render s3 = idle_view ∧ 70 ∈ ended s3.
Proof.
  split; [exact mount_Inv|].
  destruct (start_stop_cycle mount sample_stream mount_Inv eq_refl)
    as (s1 & s2 & s3 & H1 & H2 & H3 & _ & _ & Hv & _ & _ & Hen & _).
  exists s3. split.
  - cbn [run]. rewrite H1, H2, H3. reflexivity.
  - split; [exact Hv|]. apply Hen. apply list_elem_of_singleton. reflexivity.
Defined.

(** ** A failed acquisition while a stream is held *)

(** X17.  A rejected [getUserMedia] releases nothing.  The stream that is
    held (from an earlier attempt that was granted) stays held and none of
    its tracks is stopped, while the camera is marked as not active: the
    placeholder is shown and, in a state that satisfies the invariant of the
    timer, no interval is left. *)
Theorem failed_acquisition_keeps_stream (s : App) (err : JSError) :
  let s' := useEffect s (startCamera_settled (inl err) s) in
  stream s' = stream s ∧
  ended s' = ended s ∧
  isCameraActive s' = false ∧
  preview (render s') = CameraOff ∧
  (∀ t, TrackStop t ∈ log s' → TrackStop t ∈ log s) ∧
  (Inv s → timers s' = ∅).
Proof.
  intros s'.
  destruct (useEffect_ui s (startCamera_settled (inl err) s)) as (Ha & Hs & _).
  fold s' in Ha, Hs. cbn in Ha, Hs.
  split; [exact Hs|].
  split; [exact (useEffect_same_stream s (startCamera_settled (inl err) s) eq_refl)|].
  split; [exact Ha|]. split.
  { unfold render. cbn [preview]. rewrite Ha. destruct (stream s'); reflexivity. }
  split.
  - intros t. subst s'. unfold useEffect. cbn [startCamera_settled].
    set (h := setIsCameraActive false (setError (Some (message err)) s)).
    rewrite (bool_decide_eq_true_2 (stream s = stream h)) by reflexivity. cbn [negb].
    assert (∀ x, TrackStop t ∈ log (stopClassification x) → TrackStop t ∈ log x) as Hstop.
    { intros x. rewrite stopClassification_log. intros Hin.
      apply elem_of_app in Hin as [Hin | Hin]; [exact Hin|].
      destruct (classificationIntervalRef x); [|inversion Hin].
      apply list_elem_of_singleton in Hin. discriminate Hin. }
    destruct (stopClassification_ui h) as (Ha3 & _).
    destruct (negb _ || negb _); [|auto].
    rewrite Ha3. cbn [h setIsCameraActive isCameraActive]. intros Hin.
    apply Hstop, Hstop in Hin. exact Hin.
  - intros HI. pose proof (startCamera_settled_Inv (inl err) s HI) as HI'. fold s' in HI'.
    exact (proj2 (Inv_idle s' HI' Ha)).
Qed.

Lemma failed_acquisition_keeps_stream_witness :
  Inv active_state ∧
  stream (useEffect active_state
            (startCamera_settled (inl (DOMException "NotReadableError" "Device in use"))
               active_state)) = Some sample_stream ∧
  timers (useEffect active_state
            (startCamera_settled (inl (DOMException "NotReadableError" "Device in use"))
               active_state)) = ∅.
Proof.
  pose proof (reachable_Inv active_state active_state_reachable) as HI.
  destruct (failed_acquisition_keeps_stream active_state
              (DOMException "NotReadableError" "Device in use"))
    as (Hs & _ & _ & _ & _ & Ht).
  split; [exact HI|]. split; [exact Hs | exact (Ht HI)].
Defined.
